(** * A single-tape Turing machine simulator

    Shallow embedding of [turing_simulator.py]: the sparse tape, the
    transition table and the step/run engine, followed by the properties
    of the engine that the specification states.

    Conventions of the embedding.
    - A Python [int] is a [Z]; a Python [str] is a [string].  Iterating a
      string yields its characters as one-character strings.
    - A [dict] is a [gmap]; [d.get(k, v)] is [default v (d !! k)].
    - A [Set[str]] is the list of its elements in the order in which the
      set object iterates.  [x in s] is list membership and [list(s)[0]]
      is the head of that list.  The order is a property of the run-time
      object (it follows the string hashes), not of the set of elements.
    - A method that mutates [self] returns the updated object.  A method
      that may raise returns an [outcome] together with the object as the
      exception leaves it. *)

From stdpp Require Import gmap strings list fin_maps pretty.

Local Open Scope Z_scope.

(** State identifiers and tape symbols are Python strings. *)
Abbreviation state := string (only parsing).
Abbreviation symbol := string (only parsing).

(** [class Direction(Enum)] *)
Inductive Direction := LEFT | RIGHT.

(** The exceptions the engine can raise. *)
Inductive exn :=
| ValueError (msg : string)
| IndexError (msg : string).

Inductive outcome (A : Type) :=
| Return (a : A)
| Raise (e : exn).
Arguments Return {A} a.
Arguments Raise {A} e.

(** [x in s] for a Python set. *)
Definition py_in (x : string) (s : list string) : bool := bool_decide (x ∈ s).

(** [s * n] for a Python string: [n] copies of [s], none when [n <= 0]. *)
Definition py_str_mul (s : string) (n : Z) : string :=
  foldr String.append EmptyString (replicate (Z.to_nat n) s).

(** ** class Tape *)
Module Tape.

Record t := mk {
  blank_symbol : symbol;
  tape : gmap Z symbol;
  head_position : Z
}.

(** [for i, symbol in enumerate(input_string): self.tape[i] = symbol] *)
Fixpoint enumerate_into (i : Z) (input_string : string) (cells : gmap Z symbol)
  : gmap Z symbol :=
  match input_string with
  | EmptyString => cells
  | String c rest => enumerate_into (i + 1) rest (<[i := String c EmptyString]> cells)
  end.

Definition init (input_string : string) (blank : symbol) : t :=
  {| blank_symbol := blank;
     tape := enumerate_into 0 input_string ∅;
     head_position := 0 |}.

Definition read (tp : t) : symbol :=
  default (blank_symbol tp) (tape tp !! head_position tp).

Definition write (tp : t) (s : symbol) : t :=
  {| blank_symbol := blank_symbol tp;
     tape := <[head_position tp := s]> (tape tp);
     head_position := head_position tp |}.

Definition move (tp : t) (direction : Direction) : t :=
  match direction with
  | LEFT =>
      {| blank_symbol := blank_symbol tp;
         tape := tape tp;
         head_position := head_position tp - 1 |}
  | RIGHT =>
      {| blank_symbol := blank_symbol tp;
         tape := tape tp;
         head_position := head_position tp + 1 |}
  end.

Definition get_content (tp : t) (window : Z) : string :=
  match (map_to_list (tape tp)).*1 with
  | [] => blank_symbol tp
  | k :: ks =>
      let min_pos := Z.min (foldr Z.min k ks) (head_position tp - Z.div window 2) in
      let max_pos := Z.max (foldr Z.max k ks) (head_position tp + Z.div window 2) in
      foldl (fun content i => content +:+ default (blank_symbol tp) (tape tp !! i))
            EmptyString
            (seqZ min_pos (max_pos + 1 - min_pos))
  end.

Definition get_head_indicator (tp : t) (window : Z) : string :=
  match (map_to_list (tape tp)).*1 with
  | [] => "^"
  | k :: ks =>
      let min_pos := Z.min (foldr Z.min k ks) (head_position tp - Z.div window 2) in
      let offset := head_position tp - min_pos in
      py_str_mul " " offset +:+ "^"
  end.

End Tape.

(** ** class TransitionFunction *)
Module TransitionFunction.

Record t := mk {
  transitions : gmap (state * symbol) (state * symbol * Direction)
}.

Definition init : t := {| transitions := ∅ |}.

Definition add_transition (tf : t) (current_state : state) (read_symbol : symbol)
    (next_state : state) (write_symbol : symbol) (direction : string) : t :=
  let dir_enum := if bool_decide (direction = "L"%string) then LEFT else RIGHT in
  {| transitions :=
       <[(current_state, read_symbol) := (next_state, write_symbol, dir_enum)]>
         (transitions tf) |}.

Definition get_transition (tf : t) (current_state : state) (read_symbol : symbol)
  : option (state * symbol * Direction) :=
  transitions tf !! (current_state, read_symbol).

(** One entry of the [transitions] list of a machine description. *)
Record record := {
  r_current_state : state;
  r_read_symbol : symbol;
  r_next_state : state;
  r_write_symbol : symbol;
  r_direction : string
}.

Definition load_from_dict (tf : t) (transitions_dict : list record) : t :=
  foldl (fun acc trans =>
           add_transition acc (r_current_state trans) (r_read_symbol trans)
             (r_next_state trans) (r_write_symbol trans) (r_direction trans))
        tf transitions_dict.

End TransitionFunction.

(** ** class TuringMachine *)
Module TuringMachine.

(** One history entry, kept as the four values that the source
    interpolates into
    [f"Paso {step_count}: Estado={current_state}, Posición={head_position}, Cinta={content}"];
    [config_text] is that text and [get_history] returns the texts. *)
Record Configuration := {
  c_step_count : Z;
  c_state : state;
  c_head_position : Z;
  c_content : string
}.

Definition config_text (c : Configuration) : string :=
  "Paso " +:+ pretty (c_step_count c) +:+ ": Estado=" +:+ c_state c +:+
  ", Posición=" +:+ pretty (c_head_position c) +:+ ", Cinta=" +:+ c_content c.

Record t := mk {
  states : list state;
  input_alphabet : list symbol;
  tape_alphabet : list symbol;
  transition_function : TransitionFunction.t;
  initial_state : state;
  accept_states : list state;
  reject_states : list state;
  blank_symbol : symbol;
  current_state : state;
  tape : option Tape.t;
  step_count : Z;
  history : list Configuration
}.

(** [__init__]: stores its arguments, checks nothing. *)
Definition init (states : list state) (input_alphabet tape_alphabet : list symbol)
    (transition_function : TransitionFunction.t) (initial_state : state)
    (accept_states reject_states : list state) (blank_symbol : symbol) : t :=
  {| states := states;
     input_alphabet := input_alphabet;
     tape_alphabet := tape_alphabet;
     transition_function := transition_function;
     initial_state := initial_state;
     accept_states := accept_states;
     reject_states := reject_states;
     blank_symbol := blank_symbol;
     current_state := initial_state;
     tape := None;
     step_count := 0;
     history := [] |}.

(** Assignment to the four fields of the execution state. *)
Definition with_exec (m : t) (q : state) (tp : option Tape.t) (n : Z)
    (h : list Configuration) : t :=
  {| states := states m;
     input_alphabet := input_alphabet m;
     tape_alphabet := tape_alphabet m;
     transition_function := transition_function m;
     initial_state := initial_state m;
     accept_states := accept_states m;
     reject_states := reject_states m;
     blank_symbol := blank_symbol m;
     current_state := q;
     tape := tp;
     step_count := n;
     history := h |}.

Definition _record_configuration (m : t) : t :=
  match tape m with
  | Some tp =>
      let config :=
        {| c_step_count := step_count m;
           c_state := current_state m;
           c_head_position := Tape.head_position tp;
           c_content := Tape.get_content tp 20 |} in
      with_exec m (current_state m) (tape m) (step_count m) (history m ++ [config])
  | None => m
  end.

Definition load_input (m : t) (input_string : string) : t :=
  _record_configuration
    (with_exec m (initial_state m)
       (Some (Tape.init input_string (blank_symbol m))) 0 []).

Definition step (m : t) : outcome bool * t :=
  match tape m with
  | None => (Raise (ValueError "No hay entrada cargada"), m)
  | Some tp =>
      if py_in (current_state m) (accept_states m) then (Return false, m)
      else if py_in (current_state m) (reject_states m) then (Return false, m)
      else
        let current_symbol := Tape.read tp in
        match TransitionFunction.get_transition (transition_function m)
                (current_state m) current_symbol with
        | None =>
            match reject_states m with
            | [] => (Raise (IndexError "list index out of range"), m)
            | r :: _ =>
                (Return false,
                 with_exec m r (tape m) (step_count m) (history m))
            end
        | Some (next_state, write_symbol, direction) =>
            let tp' := Tape.move (Tape.write tp write_symbol) direction in
            (Return true,
             _record_configuration
               (with_exec m next_state (Some tp') (step_count m + 1) (history m)))
        end
  end.

Definition ACEPTADA : string := "ACEPTADA".
Definition RECHAZADA : string := "RECHAZADA".
Definition BUCLE_DETECTADO : string := "BUCLE DETECTADO (límite de pasos alcanzado)".

(** The [while self.step_count < max_steps] loop of [run].  [calls]
    counts the invocations of [step]; [fuel] bounds the iterations of
    the model and [None] means it was too small.  With [step_by_step]
    the source prints the configuration and waits for Enter after each
    step; both only read the machine, so the engine state evolves the
    same way for either value of the flag. *)
Fixpoint run_loop (fuel : nat) (max_steps : Z) (step_by_step : bool)
    (m : t) (calls : nat) : option (outcome unit * t * nat) :=
  if step_count m <? max_steps then
    match fuel with
    | O => None
    | S fuel' =>
        match step m with
        | (Raise e, m') => Some (Raise e, m', S calls)
        | (Return can_continue, m') =>
            if can_continue
            then run_loop fuel' max_steps step_by_step m' (S calls)
            else Some (Return tt, m', S calls)
        end
    end
  else Some (Return tt, m, calls).

(** The result determination that closes [run]. *)
Definition result_of (m : t) : bool * string :=
  if py_in (current_state m) (accept_states m) then (true, ACEPTADA)
  else if py_in (current_state m) (reject_states m) then (false, RECHAZADA)
  else (false, BUCLE_DETECTADO).

Definition run_fuel (fuel : nat) (m : t) (input_string : string) (max_steps : Z)
    (step_by_step : bool) : option (outcome (bool * string) * t * nat) :=
  match run_loop fuel max_steps step_by_step (load_input m input_string) 0%nat with
  | None => None
  | Some (Raise e, m', calls) => Some (Raise e, m', calls)
  | Some (Return _, m', calls) => Some (Return (result_of m'), m', calls)
  end.

(** [run]: the loop increments [step_count] at every iteration it
    survives, so [max_steps] iterations are enough fuel. *)
Definition run (m : t) (input_string : string) (max_steps : Z)
    (step_by_step : bool) : option (outcome (bool * string) * t * nat) :=
  run_fuel (Z.to_nat max_steps) m input_string max_steps step_by_step.

Definition get_history (m : t) : list string := config_text <$> history m.

End TuringMachine.

(** * Vocabulary of the properties *)

Import TuringMachine.

(** The eight fields of the machine description, as opposed to the
    execution state ([current_state], [tape], [step_count], [history]). *)
Definition same_description (m m' : TuringMachine.t) : Prop :=
  states m = states m' ∧
  input_alphabet m = input_alphabet m' ∧
  tape_alphabet m = tape_alphabet m' ∧
  transition_function m = transition_function m' ∧
  initial_state m = initial_state m' ∧
  accept_states m = accept_states m' ∧
  reject_states m = reject_states m' ∧
  TuringMachine.blank_symbol m = TuringMachine.blank_symbol m'.

(** Two descriptions that agree except for the order in which their
    three sets of states iterate. *)
Definition same_description_as_sets (m m' : TuringMachine.t) : Prop :=
  states m ≡ₚ states m' ∧
  input_alphabet m = input_alphabet m' ∧
  tape_alphabet m = tape_alphabet m' ∧
  transition_function m = transition_function m' ∧
  initial_state m = initial_state m' ∧
  accept_states m ≡ₚ accept_states m' ∧
  reject_states m ≡ₚ reject_states m' ∧
  TuringMachine.blank_symbol m = TuringMachine.blank_symbol m'.

(** A state in neither [accept_states] nor [reject_states]. *)
Definition running (m : TuringMachine.t) : Prop :=
  (current_state m ∉ accept_states m) ∧ (current_state m ∉ reject_states m).

(** The five ways through [step]. *)
Inductive step_case (m : TuringMachine.t) : outcome bool → TuringMachine.t → Prop :=
| step_no_tape :
    tape m = None →
    step_case m (Raise (ValueError "No hay entrada cargada")) m
| step_halted tp :
    tape m = Some tp →
    current_state m ∈ accept_states m ∨ current_state m ∈ reject_states m →
    step_case m (Return false) m
| step_no_reject_state tp :
    tape m = Some tp → running m →
    TransitionFunction.get_transition (transition_function m)
      (current_state m) (Tape.read tp) = None →
    reject_states m = [] →
    step_case m (Raise (IndexError "list index out of range")) m
| step_implicit_reject tp r rs :
    tape m = Some tp → running m →
    TransitionFunction.get_transition (transition_function m)
      (current_state m) (Tape.read tp) = None →
    reject_states m = r :: rs →
    step_case m (Return false)
      (with_exec m r (tape m) (step_count m) (history m))
| step_transition tp next_state write_symbol direction :
    tape m = Some tp → running m →
    TransitionFunction.get_transition (transition_function m)
      (current_state m) (Tape.read tp) = Some (next_state, write_symbol, direction) →
    step_case m (Return true)
      (_record_configuration
         (with_exec m next_state
            (Some (Tape.move (Tape.write tp write_symbol) direction))
            (step_count m + 1) (history m))).

(** The machine with another transition table. *)
Definition with_transition_function (m : TuringMachine.t) (tf : TransitionFunction.t)
  : TuringMachine.t :=
  {| states := states m;
     input_alphabet := input_alphabet m;
     tape_alphabet := tape_alphabet m;
     transition_function := tf;
     initial_state := initial_state m;
     accept_states := accept_states m;
     reject_states := reject_states m;
     blank_symbol := TuringMachine.blank_symbol m;
     current_state := current_state m;
     tape := tape m;
     step_count := step_count m;
     history := history m |}.

(** The machine with another list of declared states. *)
Definition with_states (m : TuringMachine.t) (declared : list state) : TuringMachine.t :=
  {| states := declared;
     input_alphabet := input_alphabet m;
     tape_alphabet := tape_alphabet m;
     transition_function := transition_function m;
     initial_state := initial_state m;
     accept_states := accept_states m;
     reject_states := reject_states m;
     blank_symbol := TuringMachine.blank_symbol m;
     current_state := current_state m;
     tape := tape m;
     step_count := step_count m;
     history := history m |}.

(** ** Tape operations *)

(** The two operations that change a tape. *)
Inductive tape_op :=
| WriteOp (s : symbol)
| MoveOp (direction : Direction).

Definition apply_op (tp : Tape.t) (o : tape_op) : Tape.t :=
  match o with
  | WriteOp s => Tape.write tp s
  | MoveOp d => Tape.move tp d
  end.

Definition apply_ops (tp : Tape.t) (ops : list tape_op) : Tape.t :=
  foldl apply_op tp ops.

(** What position [p] holds once [ops] have been performed by a head
    that starts on [h]: the symbol of the last write made while the head
    stood on [p], or else what it held before, [old]. *)
Fixpoint last_written (ops : list tape_op) (h p : Z) (old : option symbol)
  : option symbol :=
  match ops with
  | [] => old
  | WriteOp s :: ops' => last_written ops' h p (if decide (h = p) then Some s else old)
  | MoveOp LEFT :: ops' => last_written ops' (h - 1) p old
  | MoveOp RIGHT :: ops' => last_written ops' (h + 1) p old
  end.

(** Whether some write of [ops] happens while the head stands on [p]. *)
Fixpoint written_at (ops : list tape_op) (h p : Z) : bool :=
  match ops with
  | [] => false
  | WriteOp _ :: ops' => bool_decide (h = p) || written_at ops' h p
  | MoveOp LEFT :: ops' => written_at ops' (h - 1) p
  | MoveOp RIGHT :: ops' => written_at ops' (h + 1) p
  end.

(** Whether an operation is a write. *)
Definition is_write (o : tape_op) : bool :=
  match o with
  | WriteOp _ => true
  | MoveOp _ => false
  end.

(** The character of the input string that seeds position [p], if any. *)
Definition seeded (input_string : string) (p : Z) : option symbol :=
  if decide (0 ≤ p)
  then (λ c, String c EmptyString) <$> String.get (Z.to_nat p) input_string
  else None.

(** ** Reachable machines *)

(** The machines that [load_input] and [step] produce. *)
Inductive reachable : TuringMachine.t → Prop :=
| reach_load (m : TuringMachine.t) (input_string : string) :
    reachable (load_input m input_string)
| reach_step (m : TuringMachine.t) :
    reachable m → reachable (step m).2.

(** A state of the description [m] that is in neither halting set. *)
Definition non_halting (m : TuringMachine.t) (q : state) : Prop :=
  (q ∉ accept_states m) ∧ (q ∉ reject_states m).

(** What the engine maintains about its history: one snapshot more than
    steps counted; every snapshot before the last records a non-halting
    state; the last records [current_state], unless an implicit reject
    has since replaced a non-halting state by a reject state. *)
Definition history_inv (m : TuringMachine.t) : Prop :=
  Z.of_nat (length (history m)) = step_count m + 1 ∧
  ∃ (h : list Configuration) (c : Configuration),
    history m = h ++ [c] ∧
    Forall (λ c', non_halting m (c_state c')) h ∧
    (c_state c = current_state m ∨
     (current_state m ∈ reject_states m ∧ non_halting m (c_state c))).

(** ** Sequences of calls *)

(** [n] successive calls of [step], with the results they give. *)
Fixpoint call_steps (n : nat) (m : TuringMachine.t)
  : list (outcome bool) * TuringMachine.t :=
  match n with
  | O => ([], m)
  | S n' =>
      let r := step m in
      let rs := call_steps n' r.2 in
      (r.1 :: rs.1, rs.2)
  end.

(** The machines that [step] produces after [load_input] of one given
    input string. *)
Inductive reachable_on (input_string : string) : TuringMachine.t → Prop :=
| reach_on_load (m : TuringMachine.t) :
    reachable_on input_string (load_input m input_string)
| reach_on_step (m : TuringMachine.t) :
    reachable_on input_string m → reachable_on input_string (step m).2.

(** The direction that [add_transition] stores for a direction string. *)
Definition stored_direction (direction : string) : Direction :=
  if bool_decide (direction = "L"%string) then LEFT else RIGHT.

(** The records of a transition list that are keyed by [(q, a)]. *)
Definition records_for (q : state) (a : symbol)
    (l : list TransitionFunction.record) : list TransitionFunction.record :=
  filter (λ r, (TransitionFunction.r_current_state r, TransitionFunction.r_read_symbol r) = (q, a)) l.

(** The concatenation, in order, of what positions [lo], [lo + 1], ...
    ([n] of them) hold, the blank symbol standing for an absent one. *)
Definition cells_text (tp : Tape.t) (lo n : Z) : string :=
  foldr String.append EmptyString
    ((λ i, default (Tape.blank_symbol tp) (Tape.tape tp !! i)) <$> seqZ lo n).

(** Every symbol on the tape, and the blank symbol, is one character. *)
Definition single_characters (tp : Tape.t) : Prop :=
  (∃ c, Tape.blank_symbol tp = String c EmptyString) ∧
  ∀ k s, Tape.tape tp !! k = Some s → ∃ c, s = String c EmptyString.

(** ** Example machines *)

(** The acceptor of the single word [0] used by the unit tests. *)
Definition tf_single_zero : TransitionFunction.t :=
  TransitionFunction.add_transition TransitionFunction.init "q0" "0" "q_accept" "0" "R".

Definition single_zero : TuringMachine.t :=
  TuringMachine.init ["q0"; "q_accept"; "q_reject"] ["0"; "1"] ["0"; "1"; "_"]
    tf_single_zero "q0" ["q_accept"] ["q_reject"] "_".

(** The same machine described without any reject state. *)
Definition no_reject : TuringMachine.t :=
  TuringMachine.init ["q0"; "q_accept"] ["0"; "1"] ["0"; "1"; "_"]
    tf_single_zero "q0" ["q_accept"] [] "_".

(** A description whose initial, accept and reject states are all
    missing from [states]. *)
Definition undeclared_states : TuringMachine.t :=
  TuringMachine.init ["q0"] ["0"; "1"] ["0"; "1"; "_"]
    tf_single_zero "start" ["yes"] ["no"] "_".

(** One description with two reject states, held by two set objects
    that iterate in opposite orders. *)
Definition two_rejects_ab : TuringMachine.t :=
  TuringMachine.init ["q0"; "q_accept"; "ra"; "rb"] ["0"; "1"] ["0"; "1"; "_"]
    tf_single_zero "q0" ["q_accept"] ["ra"; "rb"] "_".

Definition two_rejects_ba : TuringMachine.t :=
  TuringMachine.init ["q0"; "q_accept"; "ra"; "rb"] ["0"; "1"] ["0"; "1"; "_"]
    tf_single_zero "q0" ["q_accept"] ["rb"; "ra"] "_".

(** A machine that starts in its accept state, loaded with the empty
    input, whose table has an entry for that state and the blank under
    the head. *)
Definition accepted_with_transition : TuringMachine.t :=
  load_input
    (TuringMachine.init ["q0"; "q_accept"; "q_reject"] ["0"; "1"] ["0"; "1"; "_"]
       (TransitionFunction.add_transition tf_single_zero "q_accept" "_" "q0" "1" "L")
       "q_accept" ["q_accept"] ["q_reject"] "_")
    "".

(** Settles a decidable statement about concrete data by evaluation. *)
Ltac by_evaluation := apply (bool_decide_unpack _); vm_compute; exact I.

(** * Properties of the engine *)

Lemma step_cases (m : TuringMachine.t) : step_case m (step m).1 (step m).2.
Proof.
  unfold step, py_in.
  destruct (tape m) as [tp|] eqn:Htape; [|by constructor].
  case_bool_decide as Hacc; [by econstructor 2; eauto|].
  case_bool_decide as Hrej; [by econstructor 2; eauto|].
  destruct (TransitionFunction.get_transition _ _ _) as [[[q w] d]|] eqn:Hget.
  - cbn. eapply step_transition; eauto. by split.
  - destruct (reject_states m) as [|r rs] eqn:Hr; cbn.
    + eapply step_no_reject_state; eauto. split; [done|]. rewrite Hr. apply not_elem_of_nil.
    + rewrite <- Htape. eapply step_implicit_reject; eauto. split; [done|]. by rewrite Hr.
Qed.

Lemma step_case_inv (m m' : TuringMachine.t) (o : outcome bool) :
  step m = (o, m') → step_case m o m'.
Proof. intros H. pose proof (step_cases m) as Hc. by rewrite H in Hc. Qed.

Lemma with_exec_description m q tp n h : same_description m (with_exec m q tp n h).
Proof. by repeat split. Qed.

Lemma record_configuration_description m : same_description m (_record_configuration m).
Proof. unfold _record_configuration. destruct (tape m); by repeat split. Qed.

Lemma same_description_refl m : same_description m m.
Proof. by repeat split. Qed.

Lemma same_description_trans m1 m2 m3 :
  same_description m1 m2 → same_description m2 m3 → same_description m1 m3.
Proof. unfold same_description. intros H1 H2. destruct_and!. repeat split; congruence. Qed.

Lemma same_description_sym m1 m2 : same_description m1 m2 → same_description m2 m1.
Proof. unfold same_description. intros H. destruct_and!. by repeat split. Qed.

Lemma step_description m : same_description m (step m).2.
Proof.
  destruct (step_cases m); try apply same_description_refl.
  - apply with_exec_description.
  - eapply same_description_trans;
      [apply with_exec_description | apply record_configuration_description].
Qed.

Lemma load_input_description m s : same_description m (load_input m s).
Proof.
  eapply same_description_trans;
    [apply with_exec_description | apply record_configuration_description].
Qed.

(** [load_input] reads the description only. *)
Lemma load_input_same m m' s : same_description m m' → load_input m s = load_input m' s.
Proof.
  unfold same_description, load_input, _record_configuration, with_exec.
  intros H. destruct_and!. cbn. by repeat match goal with H : _ = _ |- _ => rewrite H; clear H end.
Qed.

Lemma load_input_reject m s : reject_states (load_input m s) = reject_states m.
Proof. reflexivity. Qed.

Lemma load_input_tape m s :
  tape (load_input m s) = Some (Tape.init s (TuringMachine.blank_symbol m)).
Proof. reflexivity. Qed.

Lemma step_keeps_tape m : is_Some (tape m) → is_Some (tape (step m).2).
Proof.
  intros Hs. by destruct (step_cases m).
Qed.

Lemma step_true_count m m' : step m = (Return true, m') → step_count m' = step_count m + 1.
Proof.
  intros H. apply step_case_inv in H. inversion H; subst. reflexivity.
Qed.

Lemma run_loop_description fuel max_steps sbs m calls o m' calls' :
  run_loop fuel max_steps sbs m calls = Some (o, m', calls') → same_description m m'.
Proof.
  revert m calls. induction fuel as [|fuel IH]; intros m calls; cbn.
  - case_match; [done|]. intros [= <- <- <-]. apply same_description_refl.
  - case_match; [|intros [= <- <- <-]; apply same_description_refl].
    pose proof (step_description m) as Hd.
    destruct (step m) as [[b|e] m1]; cbn in Hd.
    + destruct b.
      * intros Hl. apply IH in Hl. by eapply same_description_trans.
      * by intros [= <- <- <-].
    + by intros [= <- <- <-].
Qed.

(** ** The run loop *)

(** With fuel for the remaining budget the loop finishes, after at most
    that many calls to [step]; it only raises when [reject_states] is
    empty, and when it returns in a non-halting state the budget is
    used up. *)
Lemma run_loop_total fuel max_steps sbs m calls :
  is_Some (tape m) →
  (Z.to_nat (max_steps - step_count m) ≤ fuel)%nat →
  ∃ o m' calls',
    run_loop fuel max_steps sbs m calls = Some (o, m', calls') ∧
    (calls' ≤ calls + Z.to_nat (max_steps - step_count m))%nat ∧
    match o with
    | Return _ => running m' → max_steps ≤ step_count m'
    | Raise e => e = IndexError "list index out of range" ∧ reject_states m = []
    end.
Proof.
  revert m calls. induction fuel as [|fuel IH]; intros m calls Htape Hfuel; cbn.
  - destruct (Z.ltb_spec (step_count m) max_steps) as [Hlt|Hge]; [lia|].
    exists (Return tt), m, calls. split_and!; [done|lia|done].
  - destruct (Z.ltb_spec (step_count m) max_steps) as [Hlt|Hge];
      [|exists (Return tt), m, calls; split_and!; [done|lia|done]].
    destruct (step m) as [o m1] eqn:Hs.
    pose proof (step_keeps_tape m Htape) as Htape1. rewrite Hs in Htape1.
    pose proof (step_description m) as Hd. rewrite Hs in Hd.
    apply step_case_inv in Hs.
    inversion Hs as [Hn|tp Ht Hh|tp Ht Hr Hg He|tp r rs Ht Hr Hg He|tp q w d Ht Hr Hg];
      subst.
    + rewrite Hn in Htape. by destruct Htape.
    + exists (Return tt), m1, (S calls). split_and!; [done|lia|].
      intros [Ha Hb]. by destruct Hh.
    + exists (Raise (IndexError "list index out of range")), m1, (S calls).
      split_and!; [done|lia|done..].
    + eexists (Return tt), _, (S calls). split_and!; [done|lia|].
      intros [_ Hb]. cbn in Hb. rewrite He in Hb. by destruct Hb; left.
    + destruct (IH _ (S calls) Htape1) as (o & m' & calls' & Hl & Hc & Ho).
      { unfold _record_configuration; cbn. lia. }
      exists o, m', calls'. split_and!; [done| |].
      * revert Hc. unfold _record_configuration; cbn. lia.
      * destruct o; [done|]. destruct Ho as [-> Ho]. split; [done|].
        destruct Hd as (_ & _ & _ & _ & _ & _ & Hrej & _). by rewrite Hrej.
Qed.

Lemma run_total m input_string max_steps sbs :
  ∃ o m' calls,
    run m input_string max_steps sbs = Some (o, m', calls) ∧
    (calls ≤ Z.to_nat max_steps)%nat ∧
    same_description m m' ∧
    match o with
    | Return res => res = result_of m' ∧ (running m' → max_steps ≤ step_count m')
    | Raise e => e = IndexError "list index out of range" ∧ reject_states m = []
    end.
Proof.
  unfold run, run_fuel.
  destruct (run_loop_total (Z.to_nat max_steps) max_steps sbs (load_input m input_string) 0%nat)
    as (o & m' & calls & Hl & Hc & Ho).
  { rewrite load_input_tape. eauto. }
  { cbn. lia. }
  rewrite Hl.
  assert (same_description m m') as Hd.
  { eapply same_description_trans;
      [apply load_input_description | by eapply run_loop_description]. }
  assert (calls ≤ Z.to_nat max_steps)%nat as Hc'.
  { revert Hc. cbn. rewrite Z.sub_0_r. lia. }
  destruct o as [[]|e].
  - by eexists _, m', calls.
  - destruct Ho as [-> Ho]. rewrite load_input_reject in Ho. by eexists _, m', calls.
Qed.

(** The result determination, case by case. *)
Lemma result_of_cases m :
  (current_state m ∈ accept_states m → result_of m = (true, ACEPTADA)) ∧
  (current_state m ∉ accept_states m → current_state m ∈ reject_states m →
   result_of m = (false, RECHAZADA)) ∧
  (current_state m ∉ accept_states m → current_state m ∉ reject_states m →
   result_of m = (false, BUCLE_DETECTADO)).
Proof.
  unfold result_of, py_in. split_and!; intros; repeat case_bool_decide; done.
Qed.

(** ** Outcome of [run] *)

(** C1, as the code has it: for every machine description, input
    string and non-negative [max_steps], [run] stops after at most
    [max_steps] calls to [step].  When [reject_states] is not empty it
    returns, and its result follows the final [current_state]: accepted
    if it is in [accept_states]; otherwise rejected if it is in
    [reject_states]; otherwise the step-limit result, whose label differs
    from the other two and which only arises once the step budget is used
    up.  The only other way out is the [IndexError] of an undefined
    transition met with an empty [reject_states]. *)
Theorem run_returns_one_outcome (m : TuringMachine.t) (input_string : string)
    (max_steps : Z) (step_by_step : bool) :
  0 ≤ max_steps →
  ∃ o m' calls,
    run m input_string max_steps step_by_step = Some (o, m', calls) ∧
    Z.of_nat calls ≤ max_steps ∧
    accept_states m' = accept_states m ∧
    reject_states m' = reject_states m ∧
    (reject_states m ≠ [] → ∃ res, o = Return res) ∧
    match o with
    | Return res =>
        (current_state m' ∈ accept_states m → res = (true, ACEPTADA)) ∧
        (current_state m' ∉ accept_states m → current_state m' ∈ reject_states m →
         res = (false, RECHAZADA)) ∧
        (current_state m' ∉ accept_states m → current_state m' ∉ reject_states m →
         res = (false, BUCLE_DETECTADO) ∧ max_steps ≤ step_count m')
    | Raise e =>
        reject_states m = [] ∧ e = IndexError "list index out of range"
    end ∧
    BUCLE_DETECTADO ≠ RECHAZADA ∧
    BUCLE_DETECTADO ≠ ACEPTADA ∧
    RECHAZADA ≠ ACEPTADA.
Proof.
  intros Hmax.
  destruct (run_total m input_string max_steps step_by_step)
    as (o & m' & calls & Hrun & Hcalls & Hd & Ho).
  destruct Hd as (_ & _ & _ & _ & _ & Ha & Hr & _).
  exists o, m', calls. rewrite Ha, Hr.
  split; [done|]. split; [lia|]. split; [done|]. split; [done|].
  destruct o as [res|e].
  - destruct Ho as [-> Hbudget].
    destruct (result_of_cases m') as (H1 & H2 & H3).
    split; [by eexists|]. split_and!; try done.
    intros Hna Hnr. split; [by apply H3|]. by apply Hbudget.
  - destruct Ho as [-> He]. rewrite <- Hr. by split_and!.
Qed.

Lemma run_returns_one_outcome_witness :
  0 ≤ 1000 ∧
  ∃ m' calls,
    run single_zero "0" 1000 false = Some (Return (true, ACEPTADA), m', calls) ∧
    Z.of_nat calls ≤ 1000.
Proof.
  assert (0 ≤ 1000) as H0 by lia.
  split; [done|].
  destruct (run_returns_one_outcome single_zero "0" 1000 false H0)
    as (o & m' & calls & Hrun & Hcalls & _ & _ & Hret & Ho & _).
  destruct Hret as [res ->]; [done|].
  destruct Ho as (Hacc & _).
  exists m', calls. split; [|done].
  rewrite Hrun. rewrite Hacc; [done|].
  assert (current_state m' = "q_accept"%string) as ->.
  { vm_compute in Hrun. by injection Hrun as _ <- _. }
  by_evaluation.
Defined.

(** The reading of C1 for every description fails: without a reject
    state the first undefined transition makes [run] raise. *)
Lemma run_raises_without_reject_state :
  run no_reject "1" 1 false =
  Some (Raise (IndexError "list index out of range"), load_input no_reject "1", 1%nat).
Proof. vm_compute. reflexivity. Qed.

(** ** Independence of successive runs *)

(** The loop of [run] is a number of successive calls of [step]. *)
Lemma run_loop_is_call_steps fuel max_steps sbs (m : TuringMachine.t) calls o m' calls' :
  run_loop fuel max_steps sbs m calls = Some (o, m', calls') →
  ∃ n : nat, calls' = (calls + n)%nat ∧ m' = (call_steps n m).2.
Proof.
  revert m calls. induction fuel as [|fuel IH]; intros m calls; cbn [run_loop].
  - destruct (step_count m <? max_steps); [done|].
    intros [= <- <- <-]. exists 0%nat. split; [lia|done].
  - destruct (step_count m <? max_steps);
      [|intros [= <- <- <-]; exists 0%nat; split; [lia|done]].
    destruct (step m) as [[[|]|e] m1] eqn:Hs.
    + intros (n & -> & ->)%IH. exists (S n). split; [lia|].
      cbn [call_steps]. by rewrite Hs.
    + intros [= <- <- <-]. exists 1%nat. split; [lia|]. cbn. by rewrite Hs.
    + intros [= <- <- <-]. exists 1%nat. split; [lia|]. cbn. by rewrite Hs.
Qed.


(** C7: [run] starts by [load_input], which overwrites the whole
    execution state from the description (fresh tape,
    [current_state = initial_state], [step_count = 0], a history holding
    only the initial snapshot), and then only calls [step]: the machine it
    leaves is the freshly loaded machine after the calls it made, whatever
    execution state the machine held before.  So a second [run] on the
    machine left by a first one, with the same input and [max_steps],
    gives the same result and leaves the same machine, hence a history of
    the same length. *)
Theorem run_twice (m : TuringMachine.t) (input_string : string) (max_steps : Z)
    (step_by_step : bool) :
  ∃ o m1 m2 calls,
    run m input_string max_steps step_by_step = Some (o, m1, calls) ∧
    run m1 input_string max_steps step_by_step = Some (o, m2, calls) ∧
    length (history m2) = length (history m1) ∧
    m2 = m1 ∧
    m1 = (call_steps calls (load_input m input_string)).2 ∧
    (∀ q tp n h,
       run (with_exec m q tp n h) input_string max_steps step_by_step =
       run m input_string max_steps step_by_step) ∧
    (∀ q tp n h,
       load_input (with_exec m q tp n h) input_string = load_input m input_string) ∧
    current_state (load_input m input_string) = initial_state m ∧
    tape (load_input m input_string) =
      Some (Tape.init input_string (TuringMachine.blank_symbol m)) ∧
    step_count (load_input m input_string) = 0 ∧
    length (history (load_input m input_string)) = 1%nat.
Proof.
  destruct (run_total m input_string max_steps step_by_step)
    as (o & m1 & calls & Hrun & _ & Hd & _).
  exists o, m1, m1, calls.
  assert (run m1 input_string max_steps step_by_step = Some (o, m1, calls)) as Hrun2.
  { rewrite <- Hrun. unfold run, run_fuel.
    by rewrite (load_input_same m1 m input_string (same_description_sym _ _ Hd)). }
  assert (m1 = (call_steps calls (load_input m input_string)).2) as Hsteps.
  { pose proof Hrun as Hloop. unfold run, run_fuel in Hloop.
    destruct (run_loop _ _ _ _ _) as [[[o0 m0] c0]|] eqn:Hl; [|done].
    apply run_loop_is_call_steps in Hl as (k & -> & ->).
    by destruct o0; injection Hloop as <- <- <-. }
  by split_and!.
Qed.

(** ** Undefined transitions *)

(** C2: with a loaded tape and a non-empty [reject_states], a [step]
    taken in a non-halting state for which the table has no entry under
    the head returns [False] without raising, moves [current_state] to a
    member of [reject_states] and leaves [step_count], the tape and the
    history as they were. *)
Theorem step_undefined_transition_rejects (m : TuringMachine.t) (tp : Tape.t) :
  tape m = Some tp →
  reject_states m ≠ [] →
  current_state m ∉ accept_states m →
  current_state m ∉ reject_states m →
  TransitionFunction.get_transition (transition_function m)
    (current_state m) (Tape.read tp) = None →
  ∃ m',
    step m = (Return false, m') ∧
    current_state m' ∈ reject_states m ∧
    reject_states m' = reject_states m ∧
    step_count m' = step_count m ∧
    tape m' = tape m ∧
    history m' = history m.
Proof.
  intros Ht Hne Ha Hr Hg. unfold step, py_in.
  rewrite Ht, !bool_decide_eq_false_2, Hg by done.
  destruct (reject_states m) as [|r rs] eqn:Hrs; [done|].
  eexists. split; [reflexivity|]. cbn. rewrite Hrs. split_and!; try done. by left.
Qed.

Lemma step_undefined_transition_rejects_witness :
  ∃ m', step (load_input single_zero "1") = (Return false, m') ∧
        current_state m' = "q_reject"%string ∧ step_count m' = 0.
Proof.
  destruct (step_undefined_transition_rejects (load_input single_zero "1")
              (Tape.init "1" "_"))
    as (m' & Hs & Hin & _ & Hc & _).
  - reflexivity.
  - done.
  - by_evaluation.
  - by_evaluation.
  - vm_compute. reflexivity.
  - exists m'. split; [done|]. split; [|done].
    by apply list_elem_of_singleton in Hin.
Defined.

(** ** Halting states *)

(** C3: with a loaded tape, a [step] taken when [current_state] is an
    accept or a reject state returns [False] and leaves the machine
    exactly as it was (state, tape cells, head, step count, history); the
    transition table plays no part, whatever entries it holds. *)
Theorem step_in_halting_state (m : TuringMachine.t) (tp : Tape.t) :
  tape m = Some tp →
  current_state m ∈ accept_states m ∨ current_state m ∈ reject_states m →
  step m = (Return false, m) ∧
  ∀ tf : TransitionFunction.t,
    step (with_transition_function m tf) = (Return false, with_transition_function m tf).
Proof.
  intros Ht Hh.
  assert (∀ m0, tape m0 = Some tp →
                current_state m0 ∈ accept_states m0 ∨ current_state m0 ∈ reject_states m0 →
                step m0 = (Return false, m0)) as Hgen.
  { intros m0 Ht0 Hh0. unfold step, py_in. rewrite Ht0.
    destruct Hh0; repeat case_bool_decide; done. }
  split; [by apply Hgen|]. intros tf. by apply Hgen.
Qed.

Lemma step_in_halting_state_witness :
  tape accepted_with_transition = Some (Tape.init "" "_") ∧
  current_state accepted_with_transition ∈ accept_states accepted_with_transition ∧
  TransitionFunction.get_transition (transition_function accepted_with_transition)
    (current_state accepted_with_transition) "_" = Some ("q0", "1", LEFT)%string ∧
  step accepted_with_transition = (Return false, accepted_with_transition).
Proof.
  assert (current_state accepted_with_transition ∈ accept_states accepted_with_transition)
    as Hacc by by_evaluation.
  split_and!; [reflexivity|done|reflexivity|].
  apply (step_in_halting_state accepted_with_transition (Tape.init "" "_"));
    [reflexivity|by left].
Defined.

(** ** Stepping without a tape *)

(** C8: on a machine that holds no tape, as one on which [load_input]
    was never called, [step] raises [ValueError] at once and the caller
    receives it; the machine is left untouched. *)
Theorem step_without_tape_raises (m : TuringMachine.t) :
  tape m = None →
  step m = (Raise (ValueError "No hay entrada cargada"), m).
Proof. intros Ht. unfold step. by rewrite Ht. Qed.

Lemma step_without_tape_raises_witness :
  step single_zero = (Raise (ValueError "No hay entrada cargada"), single_zero).
Proof. apply (step_without_tape_raises single_zero). reflexivity. Defined.

(** ** Head movement *)

(** C9: one [move] changes [head_position] by -1 for [LEFT] and by +1 for
    [RIGHT] and nothing else; a move followed by the opposite move gives
    back the tape it started from. *)
Theorem move_by_one (tp : Tape.t) (direction : Direction) :
  Tape.head_position (Tape.move tp direction) =
    Tape.head_position tp + (match direction with LEFT => -1 | RIGHT => 1 end) ∧
  Tape.tape (Tape.move tp direction) = Tape.tape tp ∧
  Tape.blank_symbol (Tape.move tp direction) = Tape.blank_symbol tp ∧
  Tape.move (Tape.move tp RIGHT) LEFT = tp ∧
  Tape.move (Tape.move tp LEFT) RIGHT = tp.
Proof.
  destruct tp as [b cells h].
  split_and!; try (by destruct direction); unfold Tape.move; cbn; f_equal; lia.
Qed.

(** ** Malformed descriptions *)

Lemma step_without_reject_state (m : TuringMachine.t) (tp : Tape.t) :
  tape m = Some tp →
  current_state m ∉ accept_states m →
  reject_states m = [] →
  TransitionFunction.get_transition (transition_function m)
    (current_state m) (Tape.read tp) = None →
  step m = (Raise (IndexError "list index out of range"), m).
Proof.
  intros Ht Ha Hr Hg. unfold step, py_in.
  rewrite Ht, Hr, !bool_decide_eq_false_2, Hg; [done| |done].
  apply not_elem_of_nil.
Qed.

Lemma step_with_states (m : TuringMachine.t) (declared : list state) :
  step (with_states m declared) = ((step m).1, with_states (step m).2 declared).
Proof.
  unfold step; cbn. destruct (tape m) as [tp|]; [|done].
  destruct (py_in _ (accept_states m)); [done|].
  destruct (py_in _ (reject_states m)); [done|].
  destruct (TransitionFunction.get_transition _ _ _) as [[[q w] d]|]; [done|].
  by destruct (reject_states m).
Qed.

Lemma run_loop_with_states fuel max_steps sbs (m : TuringMachine.t)
    (declared : list state) calls :
  run_loop fuel max_steps sbs (with_states m declared) calls =
  (λ r, (r.1.1, with_states r.1.2 declared, r.2)) <$> run_loop fuel max_steps sbs m calls.
Proof.
  revert m calls. induction fuel as [|fuel IH]; intros m calls; cbn.
  - by destruct (step_count m <? max_steps).
  - destruct (step_count m <? max_steps); [|done].
    rewrite step_with_states. destruct (step m) as [[[|]|e] m1]; cbn; [|done..].
    apply IH.
Qed.

(** C4, as the code has it: the one malformation that surfaces is an
    empty [reject_states], and it surfaces at the first use that needs a
    reject state.  A [step] that finds no transition in a non-halting
    state then raises [IndexError] and leaves the machine as it was, and
    the loop of [run] hands the exception to its caller at that very call
    instead of going on.  The declared [states] are never read: [step] and
    [run] do the same whatever that set holds, so a state missing from it
    causes no error. *)
Theorem only_empty_reject_states_surfaces
    (m : TuringMachine.t) (tp : Tape.t) (declared : list state) :
  (tape m = Some tp →
   current_state m ∉ accept_states m →
   reject_states m = [] →
   TransitionFunction.get_transition (transition_function m)
     (current_state m) (Tape.read tp) = None →
   step m = (Raise (IndexError "list index out of range"), m) ∧
   ∀ (fuel : nat) (max_steps : Z) (step_by_step : bool) (calls : nat),
     step_count m < max_steps →
     run_loop (S fuel) max_steps step_by_step m calls =
     Some (Raise (IndexError "list index out of range"), m, S calls)) ∧
  step (with_states m declared) = ((step m).1, with_states (step m).2 declared) ∧
  (∀ (input_string : string) (max_steps : Z) (step_by_step : bool),
     run (with_states m declared) input_string max_steps step_by_step =
     (λ r, (r.1.1, with_states r.1.2 declared, r.2)) <$>
       run m input_string max_steps step_by_step).
Proof.
  split_and!.
  - intros Ht Ha Hr Hg.
    pose proof (step_without_reject_state m tp Ht Ha Hr Hg) as Hs.
    split; [done|]. intros fuel max_steps sbs calls Hlt. cbn.
    destruct (Z.ltb_spec (step_count m) max_steps); [|lia]. by rewrite Hs.
  - apply step_with_states.
  - intros input_string max_steps sbs. unfold run, run_fuel.
    change (load_input (with_states m declared) input_string)
      with (with_states (load_input m input_string) declared).
    rewrite run_loop_with_states.
    by destruct (run_loop _ _ _ (load_input m input_string) _) as [[[[[]|e] m1] c]|].
Qed.

Lemma only_empty_reject_states_surfaces_witness :
  step (load_input no_reject "1") =
  (Raise (IndexError "list index out of range"), load_input no_reject "1").
Proof.
  apply (only_empty_reject_states_surfaces
           (load_input no_reject "1") (Tape.init "1" "_") []).
  - reflexivity.
  - by_evaluation.
  - reflexivity.
  - vm_compute. reflexivity.
Defined.

(** The rest of C4 fails: a description whose initial, accept and reject
    states are all outside [states] is built and run like any other, and
    its undefined transition is an ordinary rejection. *)
Lemma undeclared_states_are_tolerated :
  (initial_state undeclared_states ∉ states undeclared_states) ∧
  ¬ (accept_states undeclared_states ⊆ states undeclared_states) ∧
  ¬ (reject_states undeclared_states ⊆ states undeclared_states) ∧
  step (load_input undeclared_states "0") =
    (Return false,
     with_exec (load_input undeclared_states "0") "no"
       (tape (load_input undeclared_states "0")) 0
       (history (load_input undeclared_states "0"))) ∧
  run undeclared_states "0" 1000 false =
    Some (Return (false, RECHAZADA),
          (step (load_input undeclared_states "0")).2, 1%nat).
Proof.
  split_and!.
  - by_evaluation.
  - by_evaluation.
  - by_evaluation.
  - vm_compute. reflexivity.
  - vm_compute. reflexivity.
Qed.

(** ** Choice of the reject state *)

(** C5, as the code has it: the state chosen on an implicit reject is
    the first element of [reject_states] in the iteration order of the
    set object.  Two machines with the same description held in the same
    order therefore choose the same state and give the same result on
    every input, whatever their earlier execution state. *)
Theorem reject_choice_is_first_in_order (m1 m2 : TuringMachine.t) :
  same_description m1 m2 →
  (∀ (tp : Tape.t) (r : state) (rs : list state),
     tape m1 = Some tp → tape m2 = Some tp →
     current_state m1 = current_state m2 →
     running m1 →
     TransitionFunction.get_transition (transition_function m1)
       (current_state m1) (Tape.read tp) = None →
     reject_states m1 = r :: rs →
     (step m1).1 = Return false ∧ current_state (step m1).2 = r ∧
     (step m2).1 = Return false ∧ current_state (step m2).2 = r) ∧
  (∀ (input_string : string) (max_steps : Z) (step_by_step : bool),
     run m1 input_string max_steps step_by_step =
     run m2 input_string max_steps step_by_step).
Proof.
  intros Hd. split.
  - intros tp r rs Ht1 Ht2 Hc [Ha Hr] Hg Hrs.
    destruct Hd as (_ & _ & _ & Htf & _ & Hacc & Hrej & _).
    unfold step, py_in. rewrite Ht1, Ht2, <- Hc, <- Htf, <- Hacc, <- Hrej.
    by rewrite !bool_decide_eq_false_2, Hg, Hrs.
  - intros input_string max_steps sbs. unfold run, run_fuel.
    by rewrite (load_input_same m1 m2 input_string Hd).
Qed.

Lemma reject_choice_is_first_in_order_witness :
  run two_rejects_ab "1" 5 false = run (load_input two_rejects_ab "0") "1" 5 false ∧
  current_state (step (load_input two_rejects_ab "1")).2 = "ra"%string.
Proof.
  destruct (reject_choice_is_first_in_order two_rejects_ab (load_input two_rejects_ab "0"))
    as [_ Hrun].
  { apply load_input_description. }
  split; [apply Hrun|].
  destruct (reject_choice_is_first_in_order
              (load_input two_rejects_ab "1") (load_input two_rejects_ab "1"))
    as [Hstep _].
  { apply same_description_refl. }
  apply (Hstep (Tape.init "1" "_") "ra"%string ["rb"%string]); try reflexivity.
  split; by_evaluation.
Defined.

(** The choice does follow the iteration order: the same description,
    with its reject set iterating as [ra, rb] or as [rb, ra], rejects the
    same input in two different states. *)
Lemma reject_choice_follows_iteration_order :
  same_description_as_sets two_rejects_ab two_rejects_ba ∧
  current_state (step (load_input two_rejects_ab "1")).2 = "ra"%string ∧
  current_state (step (load_input two_rejects_ba "1")).2 = "rb"%string.
Proof.
  split; [|split; vm_compute; reflexivity].
  repeat split; try reflexivity. apply perm_swap.
Qed.

(** ** Reading the tape *)

Lemma enumerate_into_lookup (input_string : string) (i : Z) (cells : gmap Z string) (p : Z) :
  Tape.enumerate_into i input_string cells !! p =
  if decide (i ≤ p < i + Z.of_nat (String.length input_string))
  then (λ c, String c EmptyString) <$> String.get (Z.to_nat (p - i)) input_string
  else cells !! p.
Proof.
  revert i cells. induction input_string as [|c rest IH]; intros i cells; cbn [Tape.enumerate_into].
  - case_decide; [cbn in *; lia|done].
  - rewrite IH. cbn [String.length].
    destruct (decide (p = i)) as [->|Hne].
    + rewrite decide_False by lia. rewrite decide_True by lia.
      rewrite lookup_insert_eq. by replace (Z.to_nat (i - i)) with 0%nat by lia.
    + rewrite lookup_insert_ne by done.
      case_decide; case_decide; try lia; [|done].
      replace (Z.to_nat (p - i)) with (S (Z.to_nat (p - (i + 1)))) by lia. done.
Qed.

Lemma string_get_None (s : string) (n : nat) :
  String.get n s = None ↔ (String.length s ≤ n)%nat.
Proof.
  revert n. induction s as [|c s IH]; intros n; cbn.
  - split; [lia|done].
  - destruct n as [|n]; [split; [done|lia]|]. rewrite IH. lia.
Qed.

Lemma seeded_None (input_string : string) (p : Z) :
  seeded input_string p = None ↔ p < 0 ∨ Z.of_nat (String.length input_string) ≤ p.
Proof.
  unfold seeded. case_decide.
  - rewrite fmap_None, string_get_None. lia.
  - split; [lia|done].
Qed.

Lemma init_lookup (input_string : string) (blank : string) (p : Z) :
  Tape.tape (Tape.init input_string blank) !! p = seeded input_string p.
Proof.
  unfold Tape.init; cbn. rewrite enumerate_into_lookup, lookup_empty, Z.sub_0_r.
  case_decide as Hin.
  - unfold seeded. by rewrite decide_True by lia.
  - symmetry. apply seeded_None. lia.
Qed.

Lemma apply_ops_lookup (ops : list tape_op) (tp : Tape.t) (p : Z) :
  Tape.tape (apply_ops tp ops) !! p =
  last_written ops (Tape.head_position tp) p (Tape.tape tp !! p).
Proof.
  revert tp. induction ops as [|[s|[|]] ops IH]; intros tp; cbn; [done|..].
  - unfold apply_ops in IH. rewrite IH. cbn. by rewrite lookup_insert.
  - unfold apply_ops in IH. by rewrite IH.
  - unfold apply_ops in IH. by rewrite IH.
Qed.

Lemma apply_ops_blank (ops : list tape_op) (tp : Tape.t) :
  Tape.blank_symbol (apply_ops tp ops) = Tape.blank_symbol tp.
Proof.
  revert tp. induction ops as [|[s|[|]] ops IH]; intros tp; cbn; [done|..];
    unfold apply_ops in IH; by rewrite IH.
Qed.

Lemma last_written_unwritten (ops : list tape_op) (h p : Z) (old : option string) :
  written_at ops h p = false → last_written ops h p old = old.
Proof.
  revert h old. induction ops as [|[s|[|]] ops IH]; intros h old; cbn; [done|..].
  - intros [Hh Hw]%orb_false_elim. rewrite IH by done.
    case_decide; [|done]. by rewrite bool_decide_eq_true_2 in Hh.
  - apply IH.
  - apply IH.
Qed.

(** C6: [read] is a total function of the tape, returning a symbol and
    nothing else.  On a tape built from an input string and changed by any
    sequence of writes and moves it returns the symbol last written under
    the head, else the input character seeded there, else the blank
    symbol; positions below zero or past the end of the input are never
    seeded, so until they are written they read as blank. *)
Theorem read_is_total_and_defaults_to_blank
    (input_string : string) (blank : symbol) (ops : list tape_op) :
  let tp := apply_ops (Tape.init input_string blank) ops in
  let p := Tape.head_position tp in
  Tape.read tp = default blank (last_written ops 0 p (seeded input_string p)) ∧
  (∀ s : symbol, Tape.read (Tape.write tp s) = s) ∧
  (written_at ops 0 p = false →
   Tape.read tp = default blank (seeded input_string p)) ∧
  (written_at ops 0 p = false →
   p < 0 ∨ Z.of_nat (String.length input_string) ≤ p →
   Tape.tape tp !! p = None ∧ Tape.read tp = blank).
Proof.
  intros tp p.
  assert (Tape.tape tp !! p = last_written ops 0 p (seeded input_string p)) as Hcell.
  { unfold tp. by rewrite apply_ops_lookup, init_lookup. }
  assert (Tape.read tp = default blank (Tape.tape tp !! p)) as Hread.
  { unfold Tape.read, tp. by rewrite apply_ops_blank. }
  split_and!.
  - by rewrite Hread, Hcell.
  - intros s. unfold Tape.read, Tape.write; cbn. by rewrite lookup_insert_eq.
  - intros Hw. by rewrite Hread, Hcell, last_written_unwritten.
  - intros Hw Hout. rewrite Hread, Hcell, last_written_unwritten by done.
    apply seeded_None in Hout. by rewrite Hout.
Qed.

Lemma read_is_total_and_defaults_to_blank_witness :
  Tape.head_position (apply_ops (Tape.init "01" "_") [MoveOp LEFT]) = -1 ∧
  written_at [MoveOp LEFT] 0 (-1) = false ∧
  Tape.tape (apply_ops (Tape.init "01" "_") [MoveOp LEFT]) !! (-1) = None ∧
  Tape.read (apply_ops (Tape.init "01" "_") [MoveOp LEFT]) = "_"%string.
Proof.
  split; [reflexivity|]. split; [reflexivity|].
  apply (read_is_total_and_defaults_to_blank "01" "_" [MoveOp LEFT]).
  - reflexivity.
  - left. cbn. lia.
Defined.

(** ** History and step count *)

Lemma load_input_history (m : TuringMachine.t) (input_string : string) :
  ∃ c, history (load_input m input_string) = [c] ∧
       step_count (load_input m input_string) = 0 ∧
       c_step_count c = 0 ∧
       c_state c = initial_state m ∧
       c_head_position c = 0.
Proof. eexists. by split_and!. Qed.

Lemma load_input_inv (m : TuringMachine.t) (input_string : string) :
  history_inv (load_input m input_string).
Proof.
  split; [done|]. eexists [], _. split; [reflexivity|]. split; [constructor|by left].
Qed.

Lemma non_halting_description m m' q :
  same_description m m' → non_halting m q → non_halting m' q.
Proof.
  intros (_ & _ & _ & _ & _ & Ha & Hr & _). unfold non_halting. by rewrite Ha, Hr.
Qed.

Lemma step_inv (m : TuringMachine.t) : history_inv m → history_inv (step m).2.
Proof.
  intros [Hlen (h & c & Hh & Hall & Hlast)].
  destruct (step_cases m) as [Hn|tp Ht Hhalt|tp Ht Hr Hg He|tp r rs Ht Hr Hg He|tp q w d Ht Hr Hg];
    try (split; [done|]; by exists h, c).
  - split; [done|]. exists h, c. split; [done|]. split; [done|]. right.
    destruct Hlast as [Hc|[Hin _]]; [|by destruct Hr].
    split; [cbn; rewrite He; by left|]. rewrite Hc. exact Hr.
  - assert (non_halting m (c_state c)) as Hc.
    { destruct Hlast as [->|[Hin _]]; [done|by destruct Hr]. }
    unfold _record_configuration; cbn. split.
    + cbn. rewrite length_app. cbn. lia.
    + eexists (history m), _. split; [done|]. split; [|by left].
      rewrite Hh. apply Forall_app. split; [done|]. by constructor.
Qed.

Lemma reachable_inv (m : TuringMachine.t) : reachable m → history_inv m.
Proof.
  induction 1 as [m s|m _ IH]; [apply load_input_inv|by apply step_inv].
Qed.

(** C10: [load_input] leaves a history of exactly one snapshot, that of
    the initial configuration, and from then on
    [len(history) = step_count + 1] holds after every [step]: a step that
    returns [True] appends one snapshot and counts one step, any other
    step changes neither.  An implicit reject therefore leaves the history
    without a snapshot of the reject state: every recorded state differs
    from the new [current_state]. *)
Theorem history_length_is_step_count_plus_one
    (m0 : TuringMachine.t) (input_string : string) (m : TuringMachine.t) :
  reachable m →
  (∃ c, history (load_input m0 input_string) = [c] ∧
        step_count (load_input m0 input_string) = 0 ∧
        c_step_count c = 0 ∧
        c_state c = initial_state m0 ∧
        c_head_position c = 0) ∧
  Z.of_nat (length (history m)) = step_count m + 1 ∧
  Z.of_nat (length (history (step m).2)) = step_count (step m).2 + 1 ∧
  (∀ m', step m = (Return true, m') →
     step_count m' = step_count m + 1 ∧
     ∃ c, history m' = history m ++ [c] ∧
          c_step_count c = step_count m' ∧
          c_state c = current_state m') ∧
  (∀ o m', step m = (o, m') → o ≠ Return true →
     history m' = history m ∧ step_count m' = step_count m) ∧
  (∀ m', running m → step m = (Return false, m') →
     current_state m' ∈ reject_states m' ∧
     Forall (λ c, c_state c ∉ reject_states m') (history m') ∧
     Forall (λ c, c_state c ≠ current_state m') (history m')).
Proof.
  intros Hreach. pose proof (reachable_inv m Hreach) as Hinv.
  split; [apply load_input_history|].
  split; [apply Hinv|].
  split; [apply (step_inv m Hinv)|].
  split_and!.
  - intros m' Hs. apply step_case_inv in Hs.
    inversion Hs as [| | | |tp q w d Ht Hr Hg]; subst.
    unfold _record_configuration; cbn. split; [done|]. by eexists.
  - intros o m' Hs Ho. apply step_case_inv in Hs. by inversion Hs; subst.
  - intros m' Hrun Hs. apply step_case_inv in Hs.
    inversion Hs as [|tp Ht Hhalt| |tp r rs Ht Hr Hg He|]; subst.
    { destruct Hrun. by destruct Hhalt. }
    destruct Hinv as [_ (h & c & Hh & Hall & Hlast)]. cbn.
    assert (Forall (λ c', non_halting m (c_state c')) (history m)) as Hnh.
    { rewrite Hh. apply Forall_app. split; [done|]. constructor; [|done].
      destruct Hlast as [->|[Hin _]]; [done|by destruct Hrun]. }
    assert (r ∈ reject_states m) as Hin by (rewrite He; by left).
    split_and!; [done| |].
    + eapply Forall_impl; [apply Hnh|]. by intros c' [_ ?].
    + eapply Forall_impl; [apply Hnh|]. intros c' [_ Hc'] Heq. by rewrite Heq in Hc'.
Qed.

Lemma history_length_is_step_count_plus_one_witness :
  reachable (load_input single_zero "1") ∧
  length (history (step (load_input single_zero "1")).2) = 1%nat ∧
  Forall (λ c, c_state c ≠ "q_reject"%string)
    (history (step (load_input single_zero "1")).2).
Proof.
  assert (reachable (load_input single_zero "1")) as Hreach by constructor.
  split; [done|]. split; [reflexivity|].
  destruct (history_length_is_step_count_plus_one single_zero "1" _ Hreach)
    as (_ & _ & _ & _ & _ & Hrej).
  destruct (Hrej (step (load_input single_zero "1")).2) as (_ & _ & Hall).
  - split; by_evaluation.
  - vm_compute. reflexivity.
  - apply Hall.
Defined.

(** * Further properties of the tape *)

(** ** Writing *)

(** [write] stores the symbol under the head and touches nothing else:
    read-after-write returns it, every cell is what a map update at the
    head makes it, head and blank symbol stay, a second write at the same
    place replaces the first, and the symbol is still there after moving
    away and back. *)
Theorem write_updates_only_the_head_cell (tp : Tape.t) (s s' : symbol) (p : Z) :
  Tape.read (Tape.write tp s) = s ∧
  Tape.tape (Tape.write tp s) !! p =
    (if decide (Tape.head_position tp = p) then Some s else Tape.tape tp !! p) ∧
  Tape.head_position (Tape.write tp s) = Tape.head_position tp ∧
  Tape.blank_symbol (Tape.write tp s) = Tape.blank_symbol tp ∧
  Tape.write (Tape.write tp s) s' = Tape.write tp s' ∧
  Tape.read (Tape.move (Tape.move (Tape.write tp s) RIGHT) LEFT) = s ∧
  Tape.read (Tape.move (Tape.move (Tape.write tp s) LEFT) RIGHT) = s ∧
  Tape.read (Tape.move (Tape.write tp s) RIGHT) = Tape.read (Tape.move tp RIGHT) ∧
  Tape.read (Tape.move (Tape.write tp s) LEFT) = Tape.read (Tape.move tp LEFT).
Proof.
  destruct tp as [b cells h]. unfold Tape.read, Tape.write, Tape.move; cbn.
  split_and!; try done.
  - by rewrite lookup_insert_eq.
  - by rewrite lookup_insert.
  - by rewrite insert_insert_eq.
  - replace (h + 1 - 1) with h by lia. by rewrite lookup_insert_eq.
  - replace (h - 1 + 1) with h by lia. by rewrite lookup_insert_eq.
  - by rewrite lookup_insert_ne by lia.
  - by rewrite lookup_insert_ne by lia.
Qed.

(** ** The fresh tape *)

Lemma enumerate_into_dom (input_string : string) (i : Z) (cells : gmap Z string) :
  dom (Tape.enumerate_into i input_string cells) =
  dom cells ∪ list_to_set (seqZ i (Z.of_nat (String.length input_string))).
Proof.
  apply set_eq. intros p.
  rewrite elem_of_union, elem_of_list_to_set, elem_of_seqZ, !elem_of_dom,
    enumerate_into_lookup.
  case_decide as Hin.
  - split; [by right|]. intros _. rewrite fmap_is_Some.
    destruct (String.get _ _) eqn:Hg; [done|].
    apply string_get_None in Hg. lia.
  - split; [by left|]. by intros [?|?].
Qed.

Lemma fresh_tape_size (input_string : string) (blank : string) :
  size (Tape.tape (Tape.init input_string blank)) = String.length input_string.
Proof.
  rewrite <- (size_dom (D:=gset Z)). unfold Tape.init; cbn.
  rewrite enumerate_into_dom, dom_empty_L, (left_id_L ∅ (∪)).
  rewrite size_list_to_set by apply NoDup_seqZ.
  rewrite length_seqZ. apply Nat2Z.id.
Qed.

(** The constructor puts character [i] of the input at position [i]:
    the occupied positions are exactly [0 .. len - 1], one cell per
    character, the head is on 0 and reads the first character, or the
    blank symbol when the input is empty. *)
Theorem init_occupies_one_cell_per_character (input_string : string) (blank : symbol) :
  dom (Tape.tape (Tape.init input_string blank)) =
    list_to_set (seqZ 0 (Z.of_nat (String.length input_string))) ∧
  size (Tape.tape (Tape.init input_string blank)) = String.length input_string ∧
  Tape.head_position (Tape.init input_string blank) = 0 ∧
  Tape.blank_symbol (Tape.init input_string blank) = blank ∧
  Tape.read (Tape.init input_string blank) =
    match input_string with
    | EmptyString => blank
    | String c _ => String c EmptyString
    end.
Proof.
  assert (dom (Tape.tape (Tape.init input_string blank)) =
          list_to_set (seqZ 0 (Z.of_nat (String.length input_string)))) as Hdom.
  { unfold Tape.init; cbn. by rewrite enumerate_into_dom, dom_empty_L, (left_id_L ∅ (∪)). }
  split_and!; try done.
  - apply fresh_tape_size.
  - unfold Tape.read. rewrite init_lookup. by destruct input_string.
Qed.

(** ** Cells are never removed *)

Lemma apply_op_grows (tp : Tape.t) (o : tape_op) :
  dom (Tape.tape tp) ⊆ dom (Tape.tape (apply_op tp o)) ∧
  (size (Tape.tape (apply_op tp o)) ≤
   size (Tape.tape tp) + (if is_write o then 1 else 0))%nat.
Proof.
  destruct o as [s|[|]]; cbn; try (split; [done|lia]).
  split; [apply dom_insert_subseteq|].
  rewrite map_size_insert. destruct (_ !! _); cbn; lia.
Qed.

(** No operation of the tape deletes a cell, not even writing the blank
    symbol: after any sequence of writes and moves every position that
    was occupied still is, and the number of cells has grown by at most
    the number of writes. *)
Theorem tape_cells_are_never_removed (tp : Tape.t) (ops : list tape_op) :
  dom (Tape.tape tp) ⊆ dom (Tape.tape (apply_ops tp ops)) ∧
  (size (Tape.tape (apply_ops tp ops)) ≤
   size (Tape.tape tp) + length (filter is_write ops))%nat ∧
  Tape.tape (Tape.write tp (Tape.blank_symbol tp)) !! Tape.head_position tp =
    Some (Tape.blank_symbol tp).
Proof.
  split_and!; [| |unfold Tape.write; cbn; by rewrite lookup_insert_eq].
  - revert tp. induction ops as [|o ops IH]; intros tp; [done|]. cbn.
    etrans; [apply (apply_op_grows tp o)|apply IH].
  - revert tp. induction ops as [|o ops IH]; intros tp; [cbn; lia|].
    change (apply_ops tp (o :: ops)) with (apply_ops (apply_op tp o) ops).
    specialize (IH (apply_op tp o)).
    pose proof (proj2 (apply_op_grows tp o)) as Ho.
    destruct o as [s|d].
    + rewrite filter_cons_True by done. cbn in *. lia.
    + rewrite filter_cons_False by (by intros ?). cbn in *. lia.
Qed.

(** ** The visible content *)

Lemma string_app_assoc (a b c : string) : (a +:+ b) +:+ c = a +:+ (b +:+ c).
Proof.
  induction a as [|x a IH]; [done|].
  change (String x ((a +:+ b) +:+ c) = String x (a +:+ (b +:+ c))). by rewrite IH.
Qed.

Lemma string_app_empty_r (a : string) : a +:+ EmptyString = a.
Proof.
  induction a as [|x a IH]; [done|].
  change (String x (a +:+ EmptyString) = String x a). by rewrite IH.
Qed.

Lemma string_app_length (a b : string) :
  String.length (a +:+ b) = (String.length a + String.length b)%nat.
Proof.
  induction a as [|x a IH]; [done|].
  change (S (String.length (a +:+ b)) = S (String.length a + String.length b)).
  by rewrite IH.
Qed.

(** Appending piece after piece from the left is the concatenation. *)
Lemma foldl_append_pieces {A} (f : A → string) (acc : string) (l : list A) :
  foldl (λ content i, content +:+ f i) acc l =
  acc +:+ foldr String.append EmptyString (f <$> l).
Proof.
  revert acc. induction l as [|x l IH]; intros acc; cbn.
  - by rewrite string_app_empty_r.
  - by rewrite IH, string_app_assoc.
Qed.

Lemma tape_keys (cells : gmap Z string) (k : Z) :
  k ∈ (map_to_list cells).*1 ↔ is_Some (cells !! k).
Proof.
  rewrite list_elem_of_fmap. split.
  - intros [[k' s] [-> Hin]]. apply elem_of_map_to_list in Hin. by exists s.
  - intros [s Hs]. exists (k, s). split; [done|]. by apply elem_of_map_to_list.
Qed.

Lemma foldr_min_least (k : Z) (ks : list Z) :
  foldr Z.min k ks ∈ k :: ks ∧ ∀ x, x ∈ k :: ks → foldr Z.min k ks ≤ x.
Proof.
  induction ks as [|y ks [IHin IHle]]; cbn.
  - split; [by left|]. intros x ->%list_elem_of_singleton. lia.
  - split.
    + destruct (Z.min_spec y (foldr Z.min k ks)) as [[_ ->]|[_ ->]].
      * right. by left.
      * apply elem_of_cons in IHin as [Hk|?]; [rewrite Hk; by left|]. right. by right.
    + intros x [->|[->|Hx]%elem_of_cons]%elem_of_cons.
      * pose proof (IHle k (list_elem_of_here _ _)). lia.
      * lia.
      * pose proof (IHle x (list_elem_of_further _ _ _ Hx)). lia.
Qed.

Lemma foldr_max_greatest (k : Z) (ks : list Z) :
  foldr Z.max k ks ∈ k :: ks ∧ ∀ x, x ∈ k :: ks → x ≤ foldr Z.max k ks.
Proof.
  induction ks as [|y ks [IHin IHle]]; cbn.
  - split; [by left|]. intros x ->%list_elem_of_singleton. lia.
  - split.
    + destruct (Z.max_spec y (foldr Z.max k ks)) as [[_ ->]|[_ ->]].
      * apply elem_of_cons in IHin as [Hk|?]; [rewrite Hk; by left|]. right. by right.
      * right. by left.
    + intros x [->|[->|Hx]%elem_of_cons]%elem_of_cons.
      * pose proof (IHle k (list_elem_of_here _ _)). lia.
      * lia.
      * pose proof (IHle x (list_elem_of_further _ _ _ Hx)). lia.
Qed.

(** The range that [get_content] and [get_head_indicator] compute for a
    tape with at least one cell. *)
Lemma content_range (tp : Tape.t) (window : Z) (k : Z) (ks : list Z) :
  (map_to_list (Tape.tape tp)).*1 = k :: ks →
  let lo := Z.min (foldr Z.min k ks) (Tape.head_position tp - window `div` 2) in
  let hi := Z.max (foldr Z.max k ks) (Tape.head_position tp + window `div` 2) in
  lo ≤ Tape.head_position tp - window `div` 2 ∧
  Tape.head_position tp + window `div` 2 ≤ hi ∧
  (∀ p, is_Some (Tape.tape tp !! p) → lo ≤ p ≤ hi) ∧
  (lo = Tape.head_position tp - window `div` 2 ∨ is_Some (Tape.tape tp !! lo)) ∧
  (hi = Tape.head_position tp + window `div` 2 ∨ is_Some (Tape.tape tp !! hi)).
Proof.
  intros Hkeys lo hi.
  destruct (foldr_min_least k ks) as [Hmin_in Hmin].
  destruct (foldr_max_greatest k ks) as [Hmax_in Hmax].
  rewrite <- Hkeys in Hmin_in, Hmin, Hmax_in, Hmax.
  split_and!.
  - unfold lo. lia.
  - unfold hi. lia.
  - intros p Hp%tape_keys. specialize (Hmin p Hp). specialize (Hmax p Hp).
    unfold lo, hi. lia.
  - unfold lo. destruct (Z.min_spec (foldr Z.min k ks)
                           (Tape.head_position tp - window `div` 2)) as [[_ ->]|[_ ->]];
      [right; by apply tape_keys|by left].
  - unfold hi. destruct (Z.max_spec (foldr Z.max k ks)
                           (Tape.head_position tp + window `div` 2)) as [[_ ->]|[_ ->]];
      [by left|right; by apply tape_keys].
Qed.

(** [get_content] of a tape without cells is the blank symbol, whatever
    the window and the head.  Otherwise it is the text of a contiguous
    range of positions that contains every occupied position and the
    window of [window // 2] positions on each side of the head, and that
    is no larger than that: each end of the range is an occupied position
    or an end of the window. *)
Theorem get_content_spans_cells_and_window (tp : Tape.t) (window : Z) :
  (Tape.tape tp = ∅ → Tape.get_content tp window = Tape.blank_symbol tp) ∧
  (Tape.tape tp ≠ ∅ →
   ∃ lo hi : Z,
     Tape.get_content tp window = cells_text tp lo (hi + 1 - lo) ∧
     lo ≤ Tape.head_position tp - window `div` 2 ∧
     Tape.head_position tp + window `div` 2 ≤ hi ∧
     (∀ p, is_Some (Tape.tape tp !! p) → lo ≤ p ≤ hi) ∧
     (lo = Tape.head_position tp - window `div` 2 ∨ is_Some (Tape.tape tp !! lo)) ∧
     (hi = Tape.head_position tp + window `div` 2 ∨ is_Some (Tape.tape tp !! hi))).
Proof.
  unfold Tape.get_content. split.
  - intros ->. by rewrite map_to_list_empty.
  - intros Hne. destruct ((map_to_list (Tape.tape tp)).*1) as [|k ks] eqn:Hkeys.
    { apply fmap_nil_inv, map_to_list_empty_iff in Hkeys. done. }
    eexists _, _. split; [|by apply content_range].
    unfold cells_text. by rewrite foldl_append_pieces.
Qed.

Lemma get_content_spans_cells_and_window_witness :
  Tape.tape (Tape.init "01" "_") ≠ ∅ ∧
  ∃ lo hi : Z,
    Tape.get_content (Tape.init "01" "_") 4 =
      cells_text (Tape.init "01" "_") lo (hi + 1 - lo) ∧
    lo ≤ -2 ∧ 2 ≤ hi.
Proof.
  assert (Tape.tape (Tape.init "01" "_") ≠ ∅) as Hne.
  { intros He. by apply (f_equal (λ m : gmap Z string, m !! 0)) in He. }
  split; [done|].
  destruct (proj2 (get_content_spans_cells_and_window (Tape.init "01" "_") 4) Hne)
    as (lo & hi & Hc & Hlo & Hhi & _).
  exists lo, hi. by split_and!.
Defined.

(** ** The head indicator *)

Lemma py_str_mul_space_length (n : Z) : String.length (py_str_mul " " n) = Z.to_nat n.
Proof.
  unfold py_str_mul. induction (Z.to_nat n) as [|k IH]; [done|].
  cbn [replicate foldr]. rewrite string_app_length, IH. done.
Qed.

(** The text of single-character pieces has one character per piece. *)
Lemma pieces_get (l : list string) (i : nat) :
  (∀ s, s ∈ l → ∃ c, s = String c EmptyString) →
  String.length (foldr String.append EmptyString l) = length l ∧
  String.get i (foldr String.append EmptyString l) = l !! i ≫= String.get 0.
Proof.
  revert i. induction l as [|s l IH]; intros i Hall; [done|].
  destruct (Hall s (list_elem_of_here _ _)) as [c ->].
  assert (∀ s, s ∈ l → ∃ c, s = String c EmptyString) as Hl.
  { intros s Hs. apply Hall. by right. }
  change (foldr String.append EmptyString (String c EmptyString :: l))
    with (String c (foldr String.append EmptyString l)).
  split; [cbn; f_equal; apply (IH 0%nat Hl)|].
  destruct i as [|i]; [done|]. cbn. apply (IH i Hl).
Qed.

Lemma cells_text_get (tp : Tape.t) (lo n p : Z) :
  single_characters tp →
  lo ≤ p < lo + n →
  String.length (cells_text tp lo n) = Z.to_nat n ∧
  String.get (Z.to_nat (p - lo)) (cells_text tp lo n) =
    String.get 0 (default (Tape.blank_symbol tp) (Tape.tape tp !! p)).
Proof.
  intros [[b Hb] Hcells] Hp. unfold cells_text.
  edestruct (pieces_get ((λ i, default (Tape.blank_symbol tp) (Tape.tape tp !! i)) <$> seqZ lo n)
               (Z.to_nat (p - lo))) as [Hlen Hget].
  { intros s (i & -> & _)%list_elem_of_fmap.
    destruct (Tape.tape tp !! i) as [s|] eqn:Hi; cbn; [by eapply Hcells|by eexists]. }
  rewrite Hlen, Hget, length_fmap, length_seqZ, list_lookup_fmap.
  split; [done|].
  rewrite lookup_seqZ_lt by lia. cbn. by replace (lo + Z.of_nat (Z.to_nat (p - lo))) with p by lia.
Qed.

(** On a tape whose symbols are single characters, and for a
    non-negative window, the caret of [get_head_indicator] stands in the
    column of [get_content] that shows the cell under the head: the
    indicator is some spaces and a final [^], it is no longer than the
    content, and the character of the content above the caret is the
    symbol that [read] returns. *)
Theorem head_indicator_points_at_the_head_cell (tp : Tape.t) (window : Z) :
  single_characters tp →
  0 ≤ window →
  ∃ (offset : Z) (c : Ascii.ascii),
    Tape.get_head_indicator tp window = py_str_mul " " offset +:+ "^" ∧
    0 ≤ offset ∧
    String.length (Tape.get_head_indicator tp window) = S (Z.to_nat offset) ∧
    (String.length (Tape.get_head_indicator tp window) ≤
     String.length (Tape.get_content tp window))%nat ∧
    Tape.read tp = String c EmptyString ∧
    String.get (Z.to_nat offset) (Tape.get_content tp window) = Some c.
Proof.
  intros Hsingle Hwin.
  assert (0 ≤ window `div` 2) as Hhalf by (apply Z.div_pos; lia).
  assert (∃ c, Tape.read tp = String c EmptyString) as [c Hc].
  { destruct Hsingle as [[b Hb] Hcells]. unfold Tape.read.
    destruct (Tape.tape tp !! _) as [s|] eqn:Hs; cbn; [by eapply Hcells|by eexists]. }
  unfold Tape.get_head_indicator, Tape.get_content.
  destruct ((map_to_list (Tape.tape tp)).*1) as [|k ks] eqn:Hkeys.
  - exists 0, c.
    apply fmap_nil_inv, map_to_list_empty_iff in Hkeys.
    pose proof Hc as Hread.
    unfold Tape.read in Hc. rewrite Hkeys, lookup_empty in Hc. cbn in Hc.
    rewrite Hc. by split_and!.
  - destruct (content_range tp window k ks Hkeys) as (Hlo & Hhi & _).
    set (lo := Z.min (foldr Z.min k ks) (Tape.head_position tp - window `div` 2)) in *.
    set (hi := Z.max (foldr Z.max k ks) (Tape.head_position tp + window `div` 2)) in *.
    rewrite foldl_append_pieces.
    change (EmptyString +:+ ?x) with x.
    fold (cells_text tp lo (hi + 1 - lo)).
    destruct (cells_text_get tp lo (hi + 1 - lo) (Tape.head_position tp) Hsingle)
      as [Hlen Hget]; [lia|].
    exists (Tape.head_position tp - lo), c.
    rewrite string_app_length, py_str_mul_space_length, Hlen, Hget.
    fold (Tape.read tp). rewrite Hc. split_and!; try done; cbn; lia.
Qed.

Lemma head_indicator_points_at_the_head_cell_witness :
  single_characters (Tape.move (Tape.init "01" "_") RIGHT) ∧ 0 ≤ 20 ∧
  ∃ offset : Z,
    String.get (Z.to_nat offset) (Tape.get_content (Tape.move (Tape.init "01" "_") RIGHT) 20)
      = String.get 0 "1" ∧
    Tape.get_head_indicator (Tape.move (Tape.init "01" "_") RIGHT) 20 =
      py_str_mul " " offset +:+ "^".
Proof.
  assert (single_characters (Tape.move (Tape.init "01" "_") RIGHT)) as Hs.
  { split; [by eexists|]. intros k s.
    change (Tape.tape (Tape.move (Tape.init "01" "_") RIGHT))
      with (Tape.tape (Tape.init "01" "_")).
    rewrite init_lookup. unfold seeded.
    case_decide; [|done]. destruct (String.get _ _); [|done]. intros [= <-]. by eexists. }
  assert (0 ≤ 20) as Hw by lia.
  split; [done|]. split; [done|].
  destruct (head_indicator_points_at_the_head_cell _ 20 Hs Hw)
    as (offset & c & Hind & _ & _ & _ & Hread & Hget).
  exists offset. split; [|done].
  rewrite Hget. vm_compute in Hread. by injection Hread as <-.
Defined.

(** * Further properties of the transition table *)

Lemma get_after_add (tf : TransitionFunction.t) (q : state) (a : symbol)
    (q' : state) (w : symbol) (dir : string) (q2 : state) (a2 : symbol) :
  TransitionFunction.get_transition
    (TransitionFunction.add_transition tf q a q' w dir) q2 a2 =
  if decide ((q, a) = (q2, a2)) then Some (q', w, stored_direction dir)
  else TransitionFunction.get_transition tf q2 a2.
Proof.
  unfold TransitionFunction.get_transition, TransitionFunction.add_transition; cbn.
  by rewrite lookup_insert.
Qed.

(** [add_transition] followed by [get_transition]: the pair just added
    maps to the triple given, with direction [LEFT] exactly when the
    direction string is ["L"] (any other string, not only ["R"], is stored
    as [RIGHT]); every other pair keeps its entry; and adding again for
    the same pair replaces the earlier entry. *)
Theorem add_transition_then_get (tf : TransitionFunction.t) (q : state) (a : symbol)
    (q1 : state) (w1 : symbol) (dir1 : string)
    (q' : state) (w : symbol) (dir : string) (q2 : state) (a2 : symbol) :
  TransitionFunction.get_transition
    (TransitionFunction.add_transition tf q a q' w dir) q2 a2 =
    (if decide ((q, a) = (q2, a2)) then Some (q', w, stored_direction dir)
     else TransitionFunction.get_transition tf q2 a2) ∧
  (stored_direction dir = LEFT ↔ dir = "L"%string) ∧
  (stored_direction dir = RIGHT ↔ dir ≠ "L"%string) ∧
  TransitionFunction.add_transition
    (TransitionFunction.add_transition tf q a q1 w1 dir1) q a q' w dir =
  TransitionFunction.add_transition tf q a q' w dir.
Proof.
  split; [apply get_after_add|]. unfold stored_direction. split_and!.
  - case_bool_decide; naive_solver.
  - case_bool_decide; naive_solver.
  - unfold TransitionFunction.add_transition; cbn. by rewrite insert_insert_eq.
Qed.

(** After [load_from_dict] the entry of a pair is given by the last
    record of the list that is keyed by that pair, and is the entry the
    table had before when no record is; loading a list in two parts is
    loading the whole list. *)
Theorem load_from_dict_last_record_wins (tf : TransitionFunction.t)
    (l l' : list TransitionFunction.record) (q : state) (a : symbol) :
  TransitionFunction.get_transition (TransitionFunction.load_from_dict tf l) q a =
    match last (records_for q a l) with
    | Some r =>
        Some (TransitionFunction.r_next_state r, TransitionFunction.r_write_symbol r,
              stored_direction (TransitionFunction.r_direction r))
    | None => TransitionFunction.get_transition tf q a
    end ∧
  TransitionFunction.load_from_dict tf (l ++ l') =
    TransitionFunction.load_from_dict (TransitionFunction.load_from_dict tf l) l'.
Proof.
  split; [|apply foldl_app].
  revert tf. induction l as [|r l IH]; intros tf; [done|].
  change (TransitionFunction.load_from_dict tf (r :: l))
    with (TransitionFunction.load_from_dict
            (TransitionFunction.add_transition tf
               (TransitionFunction.r_current_state r) (TransitionFunction.r_read_symbol r)
               (TransitionFunction.r_next_state r) (TransitionFunction.r_write_symbol r)
               (TransitionFunction.r_direction r)) l).
  rewrite IH, get_after_add. unfold records_for. rewrite filter_cons.
  case_decide as Hkey.
  - rewrite last_cons. by destruct (last _).
  - done.
Qed.

(** * Further properties of the engine *)

(** ** A step that executes a transition *)

(** With a loaded tape, in a non-halting state for which the table has
    an entry under the head, [step] returns [True]; it has written the
    entry's symbol where the head was, moved the head one position in the
    entry's direction, entered the entry's state, counted one step and
    appended the snapshot of the new configuration, leaving the
    description as it was. *)
Theorem step_applies_the_transition (m : TuringMachine.t) (tp : Tape.t)
    (next_state : state) (write_symbol : symbol) (direction : Direction) :
  tape m = Some tp →
  current_state m ∉ accept_states m →
  current_state m ∉ reject_states m →
  TransitionFunction.get_transition (transition_function m)
    (current_state m) (Tape.read tp) = Some (next_state, write_symbol, direction) →
  ∃ m' tp',
    step m = (Return true, m') ∧
    tape m' = Some tp' ∧
    Tape.tape tp' = <[Tape.head_position tp := write_symbol]> (Tape.tape tp) ∧
    Tape.head_position tp' =
      Tape.head_position tp + (match direction with LEFT => -1 | RIGHT => 1 end) ∧
    Tape.blank_symbol tp' = Tape.blank_symbol tp ∧
    current_state m' = next_state ∧
    step_count m' = step_count m + 1 ∧
    history m' = history m ++
      [{| c_step_count := step_count m + 1;
          c_state := next_state;
          c_head_position := Tape.head_position tp';
          c_content := Tape.get_content tp' 20 |}] ∧
    same_description m m'.
Proof.
  intros Ht Ha Hr Hg. unfold step, py_in.
  rewrite Ht, !bool_decide_eq_false_2, Hg by done.
  eexists _, _. split; [reflexivity|]. unfold _record_configuration; cbn.
  split_and!; try done; by destruct direction.
Qed.

Lemma step_applies_the_transition_witness :
  ∃ m' tp',
    step (load_input single_zero "0") = (Return true, m') ∧
    tape m' = Some tp' ∧
    Tape.head_position tp' = 1 ∧ current_state m' = "q_accept"%string ∧ step_count m' = 1.
Proof.
  destruct (step_applies_the_transition (load_input single_zero "0") (Tape.init "0" "_")
              "q_accept" "0" RIGHT)
    as (m' & tp' & Hs & Ht & _ & Hh & _ & Hq & Hc & _).
  - reflexivity.
  - by_evaluation.
  - by_evaluation.
  - vm_compute. reflexivity.
  - exists m', tp'. by split_and!.
Defined.

(** ** Steps that do not execute a transition *)

Lemma step_halted_unchanged (m : TuringMachine.t) :
  is_Some (tape m) →
  current_state m ∈ accept_states m ∨ current_state m ∈ reject_states m →
  step m = (Return false, m).
Proof.
  intros [tp Ht] Hh. unfold step, py_in. rewrite Ht.
  destruct Hh; repeat case_bool_decide; done.
Qed.

Lemma step_not_true_repeats (m m' : TuringMachine.t) (o : outcome bool) :
  step m = (o, m') →
  o ≠ Return true →
  step m' = (o, m').
Proof.
  intros Hs Ho. pose proof Hs as Hc. apply step_case_inv in Hc.
  inversion Hc as [Hn|tp Ht Hh|tp Ht Hr Hg He|tp r rs Ht Hr Hg He|tp q w d Ht Hr Hg];
    subst; try done.
  apply step_halted_unchanged; [cbn; by eauto|].
  right. cbn. rewrite He. by left.
Qed.

(** Whatever a [step] gives other than [True], every later [step] gives
    again and the machine no longer changes: a halted machine stays
    halted, with its state, tape, step count and history fixed, and a step
    that raised raises the same exception again. *)
Theorem step_result_other_than_true_is_final (m m' : TuringMachine.t) (o : outcome bool) :
  step m = (o, m') →
  o ≠ Return true →
  step m' = (o, m') ∧
  ∀ n : nat, call_steps n m' = (replicate n o, m').
Proof.
  intros Hs Ho. pose proof (step_not_true_repeats m m' o Hs Ho) as Hfin.
  split; [done|]. intros n. induction n as [|n IH]; [done|].
  cbn [call_steps]. rewrite Hfin. cbn. by rewrite IH.
Qed.

Lemma step_result_other_than_true_is_final_witness :
  step (step (load_input single_zero "1")).2 =
  (Return false, (step (load_input single_zero "1")).2).
Proof.
  apply (step_result_other_than_true_is_final (load_input single_zero "1")).
  - vm_compute. reflexivity.
  - done.
Defined.

Lemma call_steps_final (n : nat) (m : TuringMachine.t) (o : outcome bool) :
  step m = (o, m) → call_steps n m = (replicate n o, m).
Proof.
  intros Hs. induction n as [|n IH]; [done|].
  cbn [call_steps]. rewrite Hs. cbn. by rewrite IH.
Qed.

(** Over any number of successive calls, [step] returns [True] a number
    of times and then one and the same other result for all the remaining
    calls; [step_count] has grown by exactly the number of [True] results,
    so it never decreases. *)
Theorem step_count_counts_successful_steps (n : nat) (m : TuringMachine.t) :
  ∃ (k : nat) (o : outcome bool),
    (k ≤ n)%nat ∧
    o ≠ Return true ∧
    (call_steps n m).1 = replicate k (Return true) ++ replicate (n - k) o ∧
    step_count (call_steps n m).2 = step_count m + Z.of_nat k.
Proof.
  revert m. induction n as [|n IH]; intros m.
  { exists 0%nat, (Return false). split_and!; try done. cbn. lia. }
  cbn [call_steps]. destruct (step m) as [o1 m1] eqn:Hs. cbn [fst snd].
  assert (o1 = Return true ∨ o1 ≠ Return true) as [->|Hne].
  { destruct o1 as [[|]|e]; [by left|by right..]. }
  - destruct (IH m1) as (k & o & Hk & Ho & Hres & Hcount).
    exists (S k), o. split_and!; [lia|done| |].
    + cbn. by rewrite Hres.
    + rewrite Hcount, (step_true_count m m1 Hs). lia.
  - pose proof (step_not_true_repeats m m1 o1 Hs Hne) as Hfin.
    rewrite (call_steps_final n m1 o1 Hfin). cbn.
    exists 0%nat, o1. split_and!; [lia|done|done|].
    apply step_case_inv in Hs. inversion Hs; subst; try done; cbn; lia.
Qed.

(** ** What holds of every machine during a run *)

Lemma reachable_on_bounds
    (input_string : string) (m : TuringMachine.t) :
  reachable_on input_string m →
  ∃ tp,
    tape m = Some tp ∧
    Tape.blank_symbol tp = TuringMachine.blank_symbol m ∧
    0 ≤ step_count m ∧
    - step_count m ≤ Tape.head_position tp ≤ step_count m ∧
    (∃ j, Tape.head_position tp + step_count m = 2 * j) ∧
    (∀ p, is_Some (Tape.tape tp !! p) →
       0 ≤ p < Z.of_nat (String.length input_string) ∨
       - step_count m < p < step_count m) ∧
    (size (Tape.tape tp) ≤ String.length input_string + Z.to_nat (step_count m))%nat.
Proof.
  induction 1 as [m0|m _ (tp & Ht & Hb & Hsc & Hhead & [j Hj] & Hkeys & Hsize)].
  - eexists. split; [reflexivity|]. cbn.
    split_and!; try done; try lia.
    + by exists 0.
    + intros p. rewrite enumerate_into_lookup, lookup_empty.
      case_decide; [left; lia|by intros []].
    + pose proof (fresh_tape_size input_string
                    (TuringMachine.blank_symbol m0)) as Hs.
      unfold Tape.init in Hs; cbn in Hs. lia.
  - destruct (step_cases m)
      as [Hn|tp0 Ht0 Hh|tp0 Ht0 Hr Hg He|tp0 r rs Ht0 Hr Hg He|tp0 q w d Ht0 Hr Hg].
    1-4: exists tp; cbn; split_and!; try done; try lia; by exists j.
    rewrite Ht in Ht0. injection Ht0 as <-.
    eexists. unfold _record_configuration; cbn. split; [reflexivity|].
    split_and!.
    + by destruct d.
    + lia.
    + destruct d; cbn; lia.
    + destruct d; cbn; lia.
    + destruct d; cbn; [exists j|exists (j + 1)]; lia.
    + intros p. assert (Tape.tape (Tape.move (Tape.write tp w) d) !! p =
                        <[Tape.head_position tp := w]> (Tape.tape tp) !! p) as ->
        by (by destruct d).
      rewrite lookup_insert. case_decide as Hp; [intros _; right; lia|].
      intros Hsome. destruct (Hkeys p Hsome); [by left|right; lia].
    + assert (Tape.tape (Tape.move (Tape.write tp w) d) =
              <[Tape.head_position tp := w]> (Tape.tape tp)) as -> by (by destruct d).
      rewrite map_size_insert. destruct (_ !! _); cbn; lia.
Qed.

(** At any point after [load_input] of an input string, however many
    steps have been taken: the machine holds a tape whose blank symbol is
    the machine's; [step_count] is not negative; the head is at most
    [step_count] positions away from position 0, on a position of the
    same parity as [step_count]; every occupied position lies in the input
    or strictly within [step_count] of position 0; and the tape has at
    most one cell per input character plus one per step. *)
Theorem head_and_tape_are_bounded_by_the_steps
    (input_string : string) (m : TuringMachine.t) :
  reachable_on input_string m →
  ∃ tp,
    tape m = Some tp ∧
    Tape.blank_symbol tp = TuringMachine.blank_symbol m ∧
    0 ≤ step_count m ∧
    - step_count m ≤ Tape.head_position tp ≤ step_count m ∧
    (∃ j, Tape.head_position tp + step_count m = 2 * j) ∧
    (∀ p, is_Some (Tape.tape tp !! p) →
       0 ≤ p < Z.of_nat (String.length input_string) ∨
       - step_count m < p < step_count m) ∧
    (size (Tape.tape tp) ≤ String.length input_string + Z.to_nat (step_count m))%nat.
Proof. apply reachable_on_bounds. Qed.

Lemma head_and_tape_are_bounded_by_the_steps_witness :
  reachable_on "0" (step (load_input single_zero "0")).2 ∧
  ∃ tp, tape (step (load_input single_zero "0")).2 = Some tp ∧
        -1 ≤ Tape.head_position tp ≤ 1 ∧ (size (Tape.tape tp) ≤ 2)%nat.
Proof.
  assert (reachable_on "0" (step (load_input single_zero "0")).2) as Hreach
    by (constructor; constructor).
  split; [done|].
  destruct (head_and_tape_are_bounded_by_the_steps "0" _ Hreach)
    as (tp & Ht & _ & _ & Hhead & _ & _ & Hsize).
  exists tp. split; [done|].
  assert (step_count (step (load_input single_zero "0")).2 = 1) as Hsc by reflexivity.
  rewrite Hsc in Hhead, Hsize. split; [lia|]. cbn in Hsize. lia.
Defined.

(** ** Numbering of the history *)

(** At any point after [load_input], the snapshots of the history are
    numbered 0, 1, ..., [step_count] in order, so [get_history] returns
    [step_count + 1] texts and the last snapshot carries the current step
    count. *)
Theorem history_snapshots_are_numbered (m : TuringMachine.t) :
  reachable m →
  0 ≤ step_count m ∧
  c_step_count <$> history m = seqZ 0 (step_count m + 1) ∧
  Z.of_nat (length (get_history m)) = step_count m + 1 ∧
  c_step_count <$> last (history m) = Some (step_count m).
Proof.
  intros Hreach.
  assert (0 ≤ step_count m ∧ c_step_count <$> history m = seqZ 0 (step_count m + 1))
    as [Hsc Hnum].
  { induction Hreach as [m0 s|m _ [Hsc Hnum]]; [done|].
    destruct (step_cases m)
      as [Hn|tp0 Ht0 Hh|tp0 Ht0 Hr Hg He|tp0 r rs Ht0 Hr Hg He|tp0 q w d Ht0 Hr Hg];
      try done.
    unfold _record_configuration; cbn. split; [lia|].
    rewrite fmap_app, Hnum. cbn.
    replace (step_count m + 1 + 1) with ((step_count m + 1) + 1) by lia.
    rewrite (seqZ_app 0 (step_count m + 1) 1) by lia. done. }
  split; [done|]. split; [done|].
  assert (length (history m) = Z.to_nat (step_count m + 1)) as Hlen.
  { by rewrite <- (length_fmap c_step_count), Hnum, length_seqZ. }
  split.
  - unfold get_history. rewrite length_fmap, Hlen. lia.
  - rewrite <- fmap_last, Hnum.
    replace (step_count m + 1) with (Z.of_nat (S (Z.to_nat (step_count m)))) by lia.
    rewrite seqZ_S, last_snoc. f_equal. lia.
Qed.

Lemma history_snapshots_are_numbered_witness :
  reachable (step (load_input single_zero "0")).2 ∧
  c_step_count <$> history (step (load_input single_zero "0")).2 = [0; 1].
Proof.
  assert (reachable (step (load_input single_zero "0")).2) as Hreach
    by (constructor; constructor).
  split; [done|].
  destruct (history_snapshots_are_numbered _ Hreach) as (_ & Hnum & _).
  rewrite Hnum. reflexivity.
Defined.

(** ** Bounds on a run *)

Lemma run_loop_bounds (input_string : string) fuel max_steps sbs
    (m : TuringMachine.t) calls o m' calls' :
  reachable_on input_string m →
  step_count m ≤ max_steps →
  run_loop fuel max_steps sbs m calls = Some (o, m', calls') →
  reachable_on input_string m' ∧
  step_count m' ≤ max_steps ∧
  (Z.of_nat calls' - Z.of_nat calls = step_count m' - step_count m ∨
   Z.of_nat calls' - Z.of_nat calls = step_count m' - step_count m + 1) ∧
  (∀ e, o = Raise e → Z.of_nat calls' - Z.of_nat calls = step_count m' - step_count m + 1).
Proof.
  revert m calls. induction fuel as [|fuel IH]; intros m calls Hreach Hle; cbn.
  - destruct (Z.ltb_spec (step_count m) max_steps); [done|].
    intros [= <- <- <-]. split_and!; [done|done|left; lia|done].
  - destruct (Z.ltb_spec (step_count m) max_steps) as [Hlt|Hge];
      [|intros [= <- <- <-]; split_and!; [done|done|left; lia|done]].
    pose proof (reach_on_step input_string m Hreach) as Hreach1.
    destruct (step m) as [o1 m1] eqn:Hs. cbn in Hreach1.
    apply step_case_inv in Hs.
    inversion Hs as [Hn|tp Ht Hh|tp Ht Hr Hg He|tp r rs Ht Hr Hg He|tp q w d Ht Hr Hg];
      subst.
    1-4: intros [= <- <- <-]; cbn; split_and!; [done|lia|right; lia|intros; lia].
    intros Hl. apply IH in Hl as (Hr1 & Hle1 & Hc & He); [|done|].
    + revert Hc He. unfold _record_configuration; cbn. intros Hc He.
      split_and!; [done|done|lia|]. intros e Heq. specialize (He e Heq). lia.
    + unfold _record_configuration; cbn. lia.
Qed.

(** For a non-negative [max_steps], what [run] leaves behind is bounded
    by the budget: the final [step_count] is at most [max_steps], the
    number of calls to [step] is that count or one more (one more when the
    run ended on a call that did not execute a transition, as every
    raising call), the history has at most [max_steps + 1] snapshots, the
    head is within [max_steps] positions of position 0 and the tape has at
    most one cell per input character plus [max_steps]. *)
Theorem run_is_bounded_by_the_budget (m : TuringMachine.t) (input_string : string)
    (max_steps : Z) (step_by_step : bool) :
  0 ≤ max_steps →
  ∃ o m' calls tp,
    run m input_string max_steps step_by_step = Some (o, m', calls) ∧
    reachable_on input_string m' ∧
    0 ≤ step_count m' ≤ max_steps ∧
    (Z.of_nat calls = step_count m' ∨ Z.of_nat calls = step_count m' + 1) ∧
    (∀ e, o = Raise e → Z.of_nat calls = step_count m' + 1) ∧
    Z.of_nat (length (history m')) = step_count m' + 1 ∧
    tape m' = Some tp ∧
    - max_steps ≤ Tape.head_position tp ≤ max_steps ∧
    (size (Tape.tape tp) ≤ String.length input_string + Z.to_nat max_steps)%nat.
Proof.
  intros Hmax.
  destruct (run_total m input_string max_steps step_by_step)
    as (o & m' & calls & Hrun & _ & _ & _).
  pose proof Hrun as Hloop. unfold run, run_fuel in Hloop.
  destruct (run_loop _ _ _ _ _) as [[[o0 m0] c0]|] eqn:Hl; [|done].
  assert (m0 = m' ∧ c0 = calls ∧ (∀ e, o = Raise e → o0 = Raise e)) as (-> & -> & Hraise).
  { destruct o0 as [[]|e0]; injection Hloop as <- <- <-; split_and!; try done.
    by intros e1 [= <-]. }
  apply (run_loop_bounds input_string) in Hl as (Hreach & Hle & Hc & He);
    [|constructor|done].
  change (step_count (load_input m input_string)) with 0 in *.
  destruct (reachable_on_bounds input_string m' Hreach)
    as (tp & Ht & _ & Hsc & Hhead & _ & _ & Hsize).
  assert (reachable m') as Hreach'.
  { clear -Hreach. induction Hreach; by constructor. }
  exists o, m', calls, tp. rewrite Hrun.
  split_and!; try done; try lia.
  - intros e Heq. specialize (He e (Hraise e Heq)). lia.
  - apply (reachable_inv m' Hreach').
Qed.

Lemma run_is_bounded_by_the_budget_witness :
  0 ≤ 3 ∧
  ∃ m' calls,
    run single_zero "0" 3 false = Some (Return (true, ACEPTADA), m', calls) ∧
    step_count m' ≤ 3 ∧ Z.of_nat (length (history m')) ≤ 4.
Proof.
  assert (0 ≤ 3) as H0 by lia. split; [done|].
  destruct (run_is_bounded_by_the_budget single_zero "0" 3 false H0)
    as (o & m' & calls & tp & Hrun & _ & Hsc & _ & _ & Hlen & _).
  exists m', calls. split_and!; [|lia|lia].
  rewrite Hrun. vm_compute in Hrun. by injection Hrun as <- _ _.
Defined.

(** ** Runs that take no step or one call *)

(** With [max_steps <= 0] the loop body never runs: [run] only loads the
    input and judges the initial state, without a single call to [step].
    A machine whose initial state is not a halting state is then reported
    with the step-limit label, whatever its transitions. *)
Theorem run_without_budget_judges_the_initial_state (m : TuringMachine.t)
    (input_string : string) (max_steps : Z) (step_by_step : bool) :
  max_steps ≤ 0 →
  ∃ res,
    run m input_string max_steps step_by_step =
      Some (Return res, load_input m input_string, 0%nat) ∧
    (initial_state m ∈ accept_states m → res = (true, ACEPTADA)) ∧
    (initial_state m ∉ accept_states m → initial_state m ∈ reject_states m →
     res = (false, RECHAZADA)) ∧
    (initial_state m ∉ accept_states m → initial_state m ∉ reject_states m →
     res = (false, BUCLE_DETECTADO)).
Proof.
  intros Hmax. exists (result_of (load_input m input_string)). split.
  - unfold run, run_fuel. replace (Z.to_nat max_steps) with 0%nat by lia.
    cbn [run_loop]. change (step_count (load_input m input_string)) with 0.
    by destruct (Z.ltb_spec 0 max_steps); [lia|].
  - apply (result_of_cases (load_input m input_string)).
Qed.

Lemma run_without_budget_judges_the_initial_state_witness :
  0 ≤ 0 ∧
  run single_zero "0" 0 false =
    Some (Return (false, BUCLE_DETECTADO), load_input single_zero "0", 0%nat).
Proof.
  assert (0 ≤ 0) as H0 by lia. split; [done|].
  destruct (run_without_budget_judges_the_initial_state single_zero "0" 0 false H0)
    as (res & Hrun & _ & _ & Hlimit).
  rewrite Hrun, Hlimit; [done|by_evaluation|by_evaluation].
Defined.

(** When the initial state is not a halting state and the table has no
    entry for it and the first input symbol (the blank symbol for the
    empty input), a run with a positive budget and a non-empty
    [reject_states] ends at its first call to [step]: no step is counted,
    the history keeps its single initial snapshot, and the machine stands
    in the first reject state.  The result is the rejection, unless that
    reject state is also an accept state, which then takes precedence. *)
Theorem run_rejects_at_the_first_call (m : TuringMachine.t) (input_string : string)
    (max_steps : Z) (step_by_step : bool) (r : state) (rs : list state) :
  0 < max_steps →
  reject_states m = r :: rs →
  initial_state m ∉ accept_states m →
  initial_state m ∉ reject_states m →
  TransitionFunction.get_transition (transition_function m) (initial_state m)
    (Tape.read (Tape.init input_string (TuringMachine.blank_symbol m))) = None →
  ∃ m',
    run m input_string max_steps step_by_step =
      Some (Return (if bool_decide (r ∈ accept_states m)
                    then (true, ACEPTADA) else (false, RECHAZADA)),
            m', 1%nat) ∧
    current_state m' = r ∧
    step_count m' = 0 ∧
    history m' = history (load_input m input_string) ∧
    length (history m') = 1%nat ∧
    tape m' = Some (Tape.init input_string (TuringMachine.blank_symbol m)).
Proof.
  intros Hmax Hrej Ha Hr Hg.
  assert (step (load_input m input_string) =
          (Return false,
           with_exec (load_input m input_string) r
             (tape (load_input m input_string)) 0
             (history (load_input m input_string)))) as Hs.
  { unfold step, py_in. rewrite load_input_tape.
    change (current_state (load_input m input_string)) with (initial_state m).
    change (accept_states (load_input m input_string)) with (accept_states m).
    change (reject_states (load_input m input_string)) with (reject_states m).
    change (transition_function (load_input m input_string)) with (transition_function m).
    by rewrite !bool_decide_eq_false_2, Hg, Hrej by done. }
  exists (with_exec (load_input m input_string) r
            (tape (load_input m input_string)) 0
            (history (load_input m input_string))).
  split; [|by split_and!].
  unfold run, run_fuel.
  destruct (Z.to_nat max_steps) as [|fuel] eqn:Hfuel; [lia|].
  cbn [run_loop]. change (step_count (load_input m input_string)) with 0.
  destruct (Z.ltb_spec 0 max_steps); [|lia]. rewrite Hs.
  unfold result_of, py_in; cbn. rewrite Hrej.
  case_bool_decide; [done|]. by rewrite bool_decide_eq_true_2 by (by left).
Qed.

Lemma run_rejects_at_the_first_call_witness :
  ∃ m', run single_zero "1" 1000 false = Some (Return (false, RECHAZADA), m', 1%nat) ∧
        step_count m' = 0.
Proof.
  destruct (run_rejects_at_the_first_call single_zero "1" 1000 false "q_reject" [])
    as (m' & Hrun & _ & Hsc & _).
  - lia.
  - reflexivity.
  - by_evaluation.
  - by_evaluation.
  - vm_compute. reflexivity.
  - exists m'. split; [|done]. rewrite Hrun. reflexivity.
Defined.

(** ** A larger budget *)

Lemma run_loop_larger_budget fuel fuel' max_steps max_steps' sbs
    (m : TuringMachine.t) calls m' calls' :
  run_loop fuel max_steps sbs m calls = Some (Return tt, m', calls') →
  current_state m' ∈ accept_states m' ∨ current_state m' ∈ reject_states m' →
  is_Some (tape m) →
  max_steps ≤ max_steps' →
  (Z.to_nat (max_steps' - step_count m) ≤ fuel')%nat →
  ∃ calls'',
    run_loop fuel' max_steps' sbs m calls = Some (Return tt, m', calls'') ∧
    (calls' ≤ calls'' ≤ calls' + 1)%nat.
Proof.
  revert m calls fuel'. induction fuel as [|fuel IH]; intros m calls fuel' Hl Hh Ht Hle Hfuel.
  - cbn in Hl. destruct (Z.ltb_spec (step_count m) max_steps); [done|].
    injection Hl as <- <-.
    destruct fuel' as [|fuel']; cbn.
    + destruct (Z.ltb_spec (step_count m) max_steps'); [lia|]. exists calls. split; [done|lia].
    + destruct (Z.ltb_spec (step_count m) max_steps'); [|exists calls; split; [done|lia]].
      rewrite (step_halted_unchanged m Ht Hh). exists (S calls). split; [done|lia].
  - cbn in Hl. destruct (Z.ltb_spec (step_count m) max_steps) as [Hlt|Hge].
    + destruct fuel' as [|fuel']; [lia|]. cbn.
      destruct (Z.ltb_spec (step_count m) max_steps'); [|lia].
      pose proof (step_keeps_tape m Ht) as Ht1.
      destruct (step m) as [[[|]|e] m1] eqn:Hs; [| |done].
      * apply (IH m1 (S calls) fuel') in Hl; try done.
        rewrite (step_true_count m m1 Hs). lia.
      * injection Hl as <- <-. exists (S calls). split; [done|lia].
    + injection Hl as <- <-.
      destruct fuel' as [|fuel']; cbn.
      * destruct (Z.ltb_spec (step_count m) max_steps'); [lia|]. exists calls. split; [done|lia].
      * destruct (Z.ltb_spec (step_count m) max_steps'); [|exists calls; split; [done|lia]].
        rewrite (step_halted_unchanged m Ht Hh). exists (S calls). split; [done|lia].
Qed.

(** A verdict does not depend on the budget that sufficed for it: when
    [run] returns with the machine in an accept or reject state, [run]
    with any larger [max_steps] returns the same result and leaves the
    same machine, after the same number of calls to [step] or one more. *)
Theorem larger_budget_keeps_the_verdict (m : TuringMachine.t) (input_string : string)
    (max_steps max_steps' : Z) (step_by_step : bool)
    (res : bool * string) (m' : TuringMachine.t) (calls : nat) :
  run m input_string max_steps step_by_step = Some (Return res, m', calls) →
  current_state m' ∈ accept_states m' ∨ current_state m' ∈ reject_states m' →
  max_steps ≤ max_steps' →
  ∃ calls',
    run m input_string max_steps' step_by_step = Some (Return res, m', calls') ∧
    (calls ≤ calls' ≤ calls + 1)%nat.
Proof.
  unfold run, run_fuel. intros Hrun Hh Hle.
  destruct (run_loop (Z.to_nat max_steps) _ _ _ _) as [[[[[]|e] m0] c0]|] eqn:Hl;
    [|done..].
  injection Hrun as <- <- <-.
  destruct (run_loop_larger_budget _ (Z.to_nat max_steps') _ max_steps' _ _ _ _ _ Hl Hh)
    as (calls' & Hl' & Hc); [rewrite load_input_tape; eauto|done|cbn; lia|].
  rewrite Hl'. by exists calls'.
Qed.

Lemma larger_budget_keeps_the_verdict_witness :
  ∃ m' calls',
    run single_zero "0" 1 false = Some (Return (true, ACEPTADA), m', 1%nat) ∧
    run single_zero "0" 1000 false = Some (Return (true, ACEPTADA), m', calls') ∧
    (1 ≤ calls' ≤ 2)%nat.
Proof.
  assert (∃ m', run single_zero "0" 1 false = Some (Return (true, ACEPTADA), m', 1%nat) ∧
                current_state m' = "q_accept"%string ∧
                accept_states m' = ["q_accept"%string]) as (m' & Hrun & Hq & Hacc).
  { eexists. split; [vm_compute; reflexivity|]. split; reflexivity. }
  destruct (larger_budget_keeps_the_verdict single_zero "0" 1 1000 false _ _ _ Hrun)
    as (calls' & Hrun' & Hc).
  - left. rewrite Hq, Hacc. by left.
  - lia.
  - exists m', calls'. split_and!; [done|done|lia|lia].
Defined.

(** ** A run is a load followed by steps *)

(** [run] changes the machine exactly as [load_input] followed by as many
    successive calls of [step] as it reports having made: nothing else
    touches the machine between or after the calls. *)
Theorem run_is_load_input_then_steps (m : TuringMachine.t) (input_string : string)
    (max_steps : Z) (step_by_step : bool) :
  ∃ o m' calls,
    run m input_string max_steps step_by_step = Some (o, m', calls) ∧
    m' = (call_steps calls (load_input m input_string)).2.
Proof.
  destruct (run_total m input_string max_steps step_by_step)
    as (o & m' & calls & Hrun & _).
  exists o, m', calls. split; [done|].
  unfold run, run_fuel in Hrun.
  destruct (run_loop _ _ _ _ _) as [[[o0 m0] c0]|] eqn:Hl; [|done].
  apply run_loop_is_call_steps in Hl as (n & -> & ->).
  by destruct o0; injection Hrun as <- <- <-.
Qed.

(** ** Width of the visible content *)

(** On a tape whose symbols are single characters, and for a
    non-negative window, [get_content] is as wide as the range it shows:
    a single character when the tape has no cell at all, and otherwise at
    least the [2 * (window // 2) + 1] positions of the window, exactly
    that many when every cell lies inside the window. *)
Theorem get_content_width (tp : Tape.t) (window : Z) :
  single_characters tp →
  0 ≤ window →
  (Tape.tape tp = ∅ → String.length (Tape.get_content tp window) = 1%nat) ∧
  (Tape.tape tp ≠ ∅ →
   2 * (window `div` 2) + 1 ≤ Z.of_nat (String.length (Tape.get_content tp window)) ∧
   ((∀ p, is_Some (Tape.tape tp !! p) →
       Tape.head_position tp - window `div` 2 ≤ p ≤ Tape.head_position tp + window `div` 2) →
    Z.of_nat (String.length (Tape.get_content tp window)) = 2 * (window `div` 2) + 1)).
Proof.
  intros Hsingle Hwin.
  assert (0 ≤ window `div` 2) as Hhalf by (apply Z.div_pos; lia).
  unfold Tape.get_content. split.
  - intros ->. rewrite map_to_list_empty. cbn. by destruct Hsingle as [[c ->] _].
  - intros Hne. destruct ((map_to_list (Tape.tape tp)).*1) as [|k ks] eqn:Hkeys.
    { apply fmap_nil_inv, map_to_list_empty_iff in Hkeys. done. }
    destruct (content_range tp window k ks Hkeys) as (Hlo & Hhi & _ & Hlo' & Hhi').
    set (lo := Z.min (foldr Z.min k ks) (Tape.head_position tp - window `div` 2)) in *.
    set (hi := Z.max (foldr Z.max k ks) (Tape.head_position tp + window `div` 2)) in *.
    rewrite foldl_append_pieces.
    change (EmptyString +:+ ?x) with x.
    fold (cells_text tp lo (hi + 1 - lo)).
    destruct (cells_text_get tp lo (hi + 1 - lo) lo Hsingle) as [-> _]; [lia|].
    split; [lia|]. intros Hin.
    assert (lo = Tape.head_position tp - window `div` 2) as ->.
    { destruct Hlo' as [?|Hk]; [done|]. specialize (Hin _ Hk). lia. }
    assert (hi = Tape.head_position tp + window `div` 2) as ->.
    { destruct Hhi' as [?|Hk]; [done|]. specialize (Hin _ Hk). lia. }
    lia.
Qed.

Lemma get_content_width_witness :
  String.length (Tape.get_content (Tape.init "" "_") 20) = 1%nat ∧
  Z.of_nat (String.length (Tape.get_content (Tape.init "01" "_") 20)) = 21.
Proof.
  assert (∀ s, single_characters (Tape.init s "_")) as Hs.
  { intros s. split; [by eexists|]. intros k x. rewrite init_lookup. unfold seeded.
    case_decide; [|done]. destruct (String.get _ _); [|done]. intros [= <-]. by eexists. }
  assert (0 ≤ 20) as Hw by lia.
  split.
  - by apply (get_content_width (Tape.init "" "_") 20 (Hs _) Hw).
  - apply (get_content_width (Tape.init "01" "_") 20 (Hs _) Hw).
    + intros He. by apply (f_equal (λ m : gmap Z string, m !! 0)) in He.
    + intros p. rewrite init_lookup. unfold seeded.
      case_decide; [|by intros []]. intros Hsome.
      assert (Z.to_nat p < 2)%nat;
        [|change (Tape.head_position (Tape.init "01" "_")) with 0;
          change (20 `div` 2) with 10; lia].
      destruct (decide (Z.to_nat p < 2)%nat) as [?|Hge]; [done|].
      assert (String.get (Z.to_nat p) "01" = None) as Hnone
        by (apply string_get_None; cbn; lia).
      rewrite Hnone in Hsome. by destruct Hsome.
Defined.
